(** * Snowflake identifier generator: a shallow embedding of
      [golang/snowflake.go] (with the [getNextMill] of [java/SnowflakeId.java]
      as the sibling implementation) and its verification.

    An identifier is an [int64] laid out, most significant bit first, as
    1 sign bit, 41 bits of millisecond offset from [start_timestamp],
    4 bits of data-center id, 6 bits of machine id and 12 bits of sequence.

    Go's [int64] is modelled as [Z] with the two's-complement wrap-around
    written out ([wrap64]); the mutable receiver [*snowFlakeId] and the wall
    clock are threaded through a small state monad [M]; a loop that may spin
    for ever is given fuel, and running out of fuel is the only way a
    computation of [M] yields [None]. *)

From Stdlib Require Import ZArith Lia Bool List String.
Import ListNotations.

Local Open Scope Z_scope.

(** ** Machine integers *)

Module Int64.

Definition min_int : Z := - 2 ^ 63.
Definition max_int : Z := 2 ^ 63 - 1.

Definition in_range (z : Z) : Prop := min_int <= z <= max_int.

(** Two's-complement reduction of a mathematical integer to [int64]. *)
Definition wrap64 (z : Z) : Z := (z + 2 ^ 63) mod 2 ^ 64 - 2 ^ 63.

Definition add (a b : Z) : Z := wrap64 (a + b).
Definition sub (a b : Z) : Z := wrap64 (a - b).
(** [a << n]: the bits shifted past bit 63 are dropped. *)
Definition shl (a n : Z) : Z := wrap64 (Z.shiftl a n).
(** [a >> n] on a signed operand is the arithmetic shift. *)
Definition shr (a n : Z) : Z := Z.shiftr a n.

End Int64.

(** ** Constants of [snowflake.go] *)

Definition start_timestamp : Z := 1480166465631.

Definition sequence_bit : Z := 12.
Definition machine_bit : Z := 6.
Definition data_center_bit : Z := 4.
Definition timestamp_bit : Z := 41.
Definition sign_bit : Z := 1.

Definition negativeOne : Z := -1.
Definition max_sequence : Z :=
  Z.lxor negativeOne (Int64.shl negativeOne sequence_bit).
Definition max_machine_num : Z :=
  Z.lxor negativeOne (Int64.shl negativeOne machine_bit).
Definition max_data_center_num : Z :=
  Z.lxor negativeOne (Int64.shl negativeOne data_center_bit).
Definition max_timestamp_num : Z :=
  Z.lxor negativeOne (Int64.shl negativeOne timestamp_bit).

Definition machine_left : Z := sequence_bit.
Definition data_center_left : Z := sequence_bit + machine_bit.
Definition timestamp_left : Z := data_center_left + data_center_bit.

(** ** The generator *)

(** The struct [snowFlakeId]; its [lock] field guards [NextId] and carries no
    data, so the sequential model leaves it out. *)
Record snowFlakeId : Type := mkSnowFlakeId {
  DataCenterId : Z;
  MachineId : Z;
  Sequence : Z;
  LastTimeStamp : Z
}.

Definition error : Type := string.
Definition errors_New (msg : string) : error := msg.

Definition err_data_center : error :=
  errors_New "DtaCenterId can't be greater than MAX_DATA_CENTER_NUM or less than 0！".
Definition err_machine : error :=
  errors_New "MachineId can't be greater than MAX_MACHINE_NUM or less than 0！".
Definition err_clock : error :=
  errors_New "Clock moved backwards.  Refusing to generate id".

(** [NewInstance]: Go returns the pair (generator, error); on an error the
    generator still carries [Sequence = 0] and [LastTimeStamp = -1] and the
    zero identity. *)
Definition NewInstance (dataCenterId machineId : Z) : snowFlakeId * option error :=
  let sf := mkSnowFlakeId 0 0 0 negativeOne in
  if (dataCenterId >? max_data_center_num) || (dataCenterId <? 0) then
    (sf, Some err_data_center)
  else if (machineId >? max_machine_num) || (machineId <? 0) then
    (sf, Some err_machine)
  else
    (mkSnowFlakeId dataCenterId machineId (Sequence sf) (LastTimeStamp sf), None).

(** ** Decoding *)

Definition ParseDataCenter (id : Z) : Z :=
  Int64.shr (Z.land id (Int64.shl max_data_center_num data_center_left))
            data_center_left.

Definition ParseMachineId (id : Z) : Z :=
  Int64.shr (Z.land id (Int64.shl max_machine_num machine_left)) machine_left.

Definition ParseDateTime (id : Z) : Z :=
  Int64.shr (Z.land id (Int64.shl max_timestamp_num timestamp_left))
            timestamp_left.

Definition ParseSequence (id : Z) : Z := Z.land id max_sequence.

(** ** The state monad of a call

    A call runs against the receiver [self] and the wall clock.  The clock is
    the sequence [clock 0, clock 1, ...] of the values that successive calls of
    [time.Now().UnixNano() / 1e6] return; [reads] counts the readings taken so
    far. *)

Record world : Type := mkWorld {
  self : snowFlakeId;
  reads : nat
}.

Definition M (A : Type) : Type := world -> option (A * world).

Definition ret {A} (a : A) : M A := fun w => Some (a, w).

Definition bind {A B} (c : M A) (k : A -> M B) : M B :=
  fun w => match c w with
           | Some (a, w') => k a w'
           | None => None
           end.

(** The computation that never returns (the fuel of a loop is exhausted). *)
Definition spin {A} : M A := fun _ => None.

Declare Scope go_scope.
Delimit Scope go_scope with go.
Notation "x <- c ;; k" := (bind c (fun x => k))
  (at level 61, c at next level, right associativity) : go_scope.
Notation "c ;;; k" := (bind c (fun _ => k))
  (at level 61, right associativity) : go_scope.
Local Open Scope go_scope.

Definition this : M snowFlakeId := fun w => Some (self w, w).

Definition set_Sequence (v : Z) : M unit := fun w =>
  let p := self w in
  Some (tt, mkWorld (mkSnowFlakeId (DataCenterId p) (MachineId p) v (LastTimeStamp p))
                    (reads w)).

Definition set_LastTimeStamp (v : Z) : M unit := fun w =>
  let p := self w in
  Some (tt, mkWorld (mkSnowFlakeId (DataCenterId p) (MachineId p) (Sequence p) v)
                    (reads w)).

Section Clock.

Variable clock : nat -> Z.

(** [getNewTimeStamp]: one reading of the clock. *)
Definition getNewTimeStamp : M Z := fun w =>
  Some (clock (reads w), mkWorld (self w) (S (reads w))).

(** The loop of [getNextMill] in [snowflake.go]:
    [for { if mill <= p.LastTimeStamp { mill = p.getNewTimeStamp(); break } }].
    When the test fails the body does nothing and the loop goes round again. *)
Fixpoint getNextMill_loop (fuel : nat) (mill : Z) : M Z :=
  match fuel with
  | O => spin
  | S fuel' =>
      p <- this ;;
      if mill <=? LastTimeStamp p then
        mill' <- getNewTimeStamp ;;
        ret mill'
      else
        getNextMill_loop fuel' mill
  end.

Definition getNextMill (fuel : nat) : M Z :=
  mill <- getNewTimeStamp ;;
  getNextMill_loop fuel mill.

(** [NextId]; the result is Go's pair (id, error). *)
Definition NextId (fuel : nat) : M (Z * option error) :=
  currTimeStamp <- getNewTimeStamp ;;
  p <- this ;;
  if currTimeStamp <? LastTimeStamp p then
    ret (0, Some err_clock)
  else
    currTimeStamp <-
      (if currTimeStamp =? LastTimeStamp p then
         set_Sequence (Z.land (Int64.add (Sequence p) 1) max_sequence) ;;;
         p <- this ;;
         if Sequence p =? 0 then getNextMill fuel else ret currTimeStamp
       else
         set_Sequence 0 ;;;
         ret currTimeStamp) ;;
    set_LastTimeStamp currTimeStamp ;;;
    p <- this ;;
    ret (Z.lor (Z.lor (Z.lor
           (Int64.shl (Int64.sub currTimeStamp start_timestamp) timestamp_left)
           (Int64.shl (DataCenterId p) data_center_left))
           (Int64.shl (MachineId p) machine_left))
           (Sequence p),
         None).

(** [n] calls of [NextId] one after the other, as the mutex orders them;
    the results are collected in call order. *)
Fixpoint NextIds (fuel : nat) (n : nat) : M (list (Z * option error)) :=
  match n with
  | O => ret []
  | S n' =>
      r <- NextId fuel ;;
      rs <- NextIds fuel n' ;;
      ret (r :: rs)
  end.

End Clock.

(** The [getNextMill] of [SnowflakeId.java]:
    [while (mill <= lastTimeStamp) { mill = getNewTimeStamp(); }]. *)
Module Java.

Section Clock.

Variable clock : nat -> Z.

Fixpoint getNextMill_loop (fuel : nat) (mill : Z) : M Z :=
  match fuel with
  | O => spin
  | S fuel' =>
      p <- this ;;
      if mill <=? LastTimeStamp p then
        mill' <- getNewTimeStamp clock ;;
        getNextMill_loop fuel' mill'
      else
        ret mill
  end.

Definition getNextMill (fuel : nat) : M Z :=
  mill <- getNewTimeStamp clock ;;
  getNextMill_loop fuel mill.

End Clock.

End Java.

(** ** The class [SnowflakeId] of [SnowflakeId.java]

    The Java class has the layout of the Go package except that the machine
    and the data center take 5 bits each.  Its fields [dataCenterId],
    [machineId], [sequence] and [lastTimeStamp] are the fields of
    [snowFlakeId]; [synchronized] plays the part of the Go mutex. *)

Module SnowflakeId.

(** [a << n] and [a >> n] on [long]: only the six low bits of the distance
    are used. *)
Definition shl (a n : Z) : Z := Int64.shl a (Z.land n 63).
Definition shr (a n : Z) : Z := Int64.shr a (Z.land n 63).

Definition START_TIMESTAMP : Z := 1480166465631.

Definition SEQUENCE_BIT : Z := 12.
Definition MACHINE_BIT : Z := 5.
Definition DATA_CENTER_BIT : Z := 5.
Definition TIMESTAMP_BIT : Z := 41.
Definition SIGN_BIT : Z := 1.

Definition MAX_SEQUENCE : Z := Z.lxor (-1) (shl (-1) SEQUENCE_BIT).
Definition MAX_MACHINE_NUM : Z := Z.lxor (-1) (shl (-1) MACHINE_BIT).
Definition MAX_DATA_CENTER_NUM : Z := Z.lxor (-1) (shl (-1) DATA_CENTER_BIT).
Definition MAX_TIMESTAMP_NUM : Z := Z.lxor (-1) (shl (-1) TIMESTAMP_BIT).

Definition MACHINE_LEFT : Z := SEQUENCE_BIT.
Definition DATA_CENTER_LEFT : Z := SEQUENCE_BIT + MACHINE_BIT.
Definition TIMESTAMP_LEFT : Z := DATA_CENTER_LEFT + DATA_CENTER_BIT.

Inductive exception : Type :=
| IllegalArgumentException (msg : string)
| RuntimeException (msg : string).

(** A line written by [System.out.printf]: the format and its arguments. *)
Definition line : Type := (string * list Z)%type.
Definition printf (fmt : string) (args : list Z) : line := (fmt, args).

Definition newline : string := String (Ascii.ascii_of_nat 10) EmptyString.

(** The constructor; the field initialisers give [sequence = 0] and
    [lastTimeStamp = -1]. *)
Definition new (dataCenterId machineId : Z) : exception + snowFlakeId :=
  if (dataCenterId >? MAX_DATA_CENTER_NUM) || (dataCenterId <? 0) then
    inl (IllegalArgumentException
           "DtaCenterId can't be greater than MAX_DATA_CENTER_NUM or less than 0！")
  else if (machineId >? MAX_MACHINE_NUM) || (machineId <? 0) then
    inl (IllegalArgumentException
           "MachineId can't be greater than MAX_MACHINE_NUM or less than 0！")
  else
    inr (mkSnowFlakeId dataCenterId machineId 0 (-1)).

Section Clock.

Variable clock : nat -> Z.

(** [nextId]: the result is the exception thrown or the id returned, with
    the lines the call printed. *)
Definition nextId (fuel : nat) : M ((exception + Z) * list line) :=
  currTimeStamp <- getNewTimeStamp clock ;;
  p <- this ;;
  if currTimeStamp <? LastTimeStamp p then
    ret (inl (RuntimeException "Clock moved backwards.  Refusing to generate id"),
         [])
  else
    currTimeStamp <-
      (if currTimeStamp =? LastTimeStamp p then
         set_Sequence (Z.land (Int64.add (Sequence p) 1) MAX_SEQUENCE) ;;;
         p <- this ;;
         if Sequence p =? 0 then Java.getNextMill clock fuel
         else ret currTimeStamp
       else
         set_Sequence 0 ;;;
         ret currTimeStamp) ;;
    set_LastTimeStamp currTimeStamp ;;;
    p <- this ;;
    let nextId :=
      Z.lor (Z.lor (Z.lor
        (shl (Int64.sub currTimeStamp START_TIMESTAMP) TIMESTAMP_LEFT)
        (shl (DataCenterId p) DATA_CENTER_LEFT))
        (shl (MachineId p) MACHINE_LEFT))
        (Sequence p) in
    ret (inr nextId,
         [printf
            ("nextId=%d;it's timeStamp=%d,datacenterId=%d,machineId=%d,sequence=%d"
             ++ newline)
            [nextId; Int64.sub currTimeStamp START_TIMESTAMP;
             DataCenterId p; MachineId p; Sequence p]]).

End Clock.

Definition parseDataCenter (id : Z) : Z :=
  shr (Z.land id (shl MAX_DATA_CENTER_NUM DATA_CENTER_LEFT)) DATA_CENTER_LEFT.

Definition parseMachineId (id : Z) : Z :=
  shr (Z.land id (shl MAX_MACHINE_NUM MACHINE_LEFT)) MACHINE_LEFT.

Definition parseDateTime (id : Z) : Z :=
  shr (Z.land id (shl MAX_TIMESTAMP_NUM TIMESTAMP_LEFT)) TIMESTAMP_LEFT.

Definition parseSequence (id : Z) : Z := Z.land id MAX_SEQUENCE.

End SnowflakeId.

(** The maxima, as the source computes them. *)
Example max_sequence_val : max_sequence = 4095. Proof. reflexivity. Qed.
Example max_machine_num_val : max_machine_num = 63. Proof. reflexivity. Qed.
Example max_data_center_num_val : max_data_center_num = 15. Proof. reflexivity. Qed.
Example max_timestamp_num_val : max_timestamp_num = 2 ^ 41 - 1. Proof. reflexivity. Qed.

(** The five fields fill the 64 bits, and the shifts stack them up. *)
Example bit_widths :
  sign_bit + timestamp_bit + data_center_bit + machine_bit + sequence_bit = 64.
Proof. reflexivity. Qed.

Example left_shifts :
  machine_left = 12 /\ data_center_left = 18 /\ timestamp_left = 22.
Proof. repeat split. Qed.

(** * Properties *)

(** ** Bits of wrapped integers *)

Module Int64Facts.
Import Int64.

Lemma wrap64_mod (z : Z) : wrap64 z mod 2 ^ 64 = z mod 2 ^ 64.
Proof.
  unfold wrap64.
  rewrite Zminus_mod_idemp_l.
  replace (z + 2 ^ 63 - 2 ^ 63) with z by lia.
  reflexivity.
Qed.

Lemma wrap64_range (z : Z) : in_range (wrap64 z).
Proof.
  unfold in_range, min_int, max_int, wrap64.
  pose proof (Z.mod_pos_bound (z + 2 ^ 63) (2 ^ 64) ltac:(lia)).
  lia.
Qed.

Lemma wrap64_small (z : Z) : in_range z -> wrap64 z = z.
Proof.
  unfold in_range, min_int, max_int, wrap64. intros H.
  rewrite Z.mod_small by lia. lia.
Qed.

(** Wrapping keeps the 64 low bits. *)
Lemma wrap64_testbit (z i : Z) :
  i < 64 -> Z.testbit (wrap64 z) i = Z.testbit z i.
Proof.
  intros Hi.
  rewrite <- (Z.mod_pow2_bits_low (wrap64 z) 64 i Hi).
  rewrite <- (Z.mod_pow2_bits_low z 64 i Hi).
  now rewrite wrap64_mod.
Qed.

Lemma shl_testbit (a n j : Z) :
  0 <= n -> j < 64 -> Z.testbit (shl a n) j = Z.testbit a (j - n).
Proof.
  intros Hn Hj. unfold shl. rewrite wrap64_testbit by assumption.
  destruct (Z.ltb_spec j 0) as [Hneg | Hpos].
  - now rewrite !Z.testbit_neg_r by lia.
  - now apply Z.shiftl_spec.
Qed.

Lemma sub_testbit (a b i : Z) :
  i < 64 -> Z.testbit (sub a b) i = Z.testbit (a - b) i.
Proof. apply wrap64_testbit. Qed.

(** A value below [2 ^ w] has no bit at or above position [w]. *)
Lemma bits_above (v w i : Z) :
  0 <= v < 2 ^ w -> w <= i -> Z.testbit v i = false.
Proof.
  intros Hv Hi.
  destruct (Z.eq_dec v 0) as [-> | Hnz]; [apply Z.bits_0 |].
  apply Z.bits_above_log2; [lia |].
  assert (0 <= w) by (destruct (Z.ltb_spec w 0); [rewrite Z.pow_neg_r in Hv; lia | lia]).
  assert (Z.log2 v < w) by (apply Z.log2_lt_pow2; lia).
  lia.
Qed.

End Int64Facts.

(** ** Bit fields *)

(** The [w] bits of [id] from position [k] upwards. *)
Definition field (id k w : Z) : Z := Z.land (Z.shiftr id k) (Z.ones w).

Lemma mask_shift (id k w : Z) :
  0 <= k -> Z.shiftr (Z.land id (Z.shiftl (Z.ones w) k)) k = field id k w.
Proof.
  intros Hk. unfold field.
  rewrite Z.shiftr_land, Z.shiftr_shiftl_l by lia.
  now rewrite Z.sub_diag, Z.shiftl_0_r.
Qed.

Lemma field_div_mod (id k w : Z) :
  0 <= k -> 0 <= w -> field id k w = (id / 2 ^ k) mod 2 ^ w.
Proof.
  intros Hk Hw. unfold field.
  now rewrite Z.land_ones, Z.shiftr_div_pow2 by lia.
Qed.

Lemma field_range (id k w : Z) :
  0 <= k -> 0 <= w -> 0 <= field id k w <= 2 ^ w - 1.
Proof.
  intros Hk Hw. rewrite field_div_mod by assumption.
  pose proof (Z.mod_pos_bound (id / 2 ^ k) (2 ^ w) ltac:(lia)). lia.
Qed.

Lemma field_testbit (id k w i : Z) :
  0 <= w -> 0 <= i ->
  Z.testbit (field id k w) i = Z.testbit id (i + k) && (i <? w).
Proof.
  intros Hw Hi. unfold field.
  rewrite Z.land_spec, Z.shiftr_spec, Z.testbit_ones_nonneg by lia.
  reflexivity.
Qed.

Lemma ParseDataCenter_field (id : Z) : ParseDataCenter id = field id 18 4.
Proof. exact (mask_shift id 18 4 ltac:(lia)). Qed.

Lemma ParseMachineId_field (id : Z) : ParseMachineId id = field id 12 6.
Proof. exact (mask_shift id 12 6 ltac:(lia)). Qed.

Lemma ParseDateTime_field (id : Z) : ParseDateTime id = field id 22 41.
Proof. exact (mask_shift id 22 41 ltac:(lia)). Qed.

Lemma ParseSequence_field (id : Z) : ParseSequence id = field id 0 12.
Proof. unfold field. now rewrite Z.shiftr_0_r. Qed.

(** The word that [NextId] composes from the timestamp it settled on, the
    identity and the sequence number. *)
Definition compose (ts dc m seq : Z) : Z :=
  Z.lor (Z.lor (Z.lor
    (Int64.shl (Int64.sub ts start_timestamp) timestamp_left)
    (Int64.shl dc data_center_left))
    (Int64.shl m machine_left))
    seq.

Lemma compose_testbit (ts dc m seq j : Z) :
  j < 64 ->
  Z.testbit (compose ts dc m seq) j =
    Z.testbit (ts - start_timestamp) (j - 22) || Z.testbit dc (j - 18)
    || Z.testbit m (j - 12) || Z.testbit seq j.
Proof.
  intros Hj. unfold compose. rewrite !Z.lor_spec.
  change timestamp_left with 22. change data_center_left with 18.
  change machine_left with 12.
  rewrite !Int64Facts.shl_testbit, Int64Facts.sub_testbit by lia.
  reflexivity.
Qed.

(** Clears the bits that a range hypothesis or a negative index makes zero. *)
Ltac kill_bits :=
  repeat match goal with
  | |- context [Z.testbit ?v ?i] =>
      first
        [ rewrite (Z.testbit_neg_r v i) by lia
        | match goal with
          | H : 0 <= v < 2 ^ ?w |- _ =>
              rewrite (Int64Facts.bits_above v w i H) by lia
          end ]
  end;
  rewrite ?orb_false_l, ?orb_false_r, ?andb_true_r, ?andb_false_r.

Ltac by_bits i Hi :=
  apply Z.bits_inj'; intros i Hi; rewrite field_testbit by lia.

Section Decode.

Variables ts dc m seq : Z.
Hypothesis Hseq : 0 <= seq < 2 ^ 12.

Lemma ParseSequence_compose : ParseSequence (compose ts dc m seq) = seq.
Proof.
  rewrite ParseSequence_field. by_bits i Hi.
  destruct (Z.ltb_spec i 12) as [Hlt | Hge].
  - rewrite compose_testbit by lia. kill_bits. f_equal; lia.
  - kill_bits. reflexivity.
Qed.

Hypothesis Hm : 0 <= m < 2 ^ 6.

Lemma ParseMachineId_compose : ParseMachineId (compose ts dc m seq) = m.
Proof.
  rewrite ParseMachineId_field. by_bits i Hi.
  destruct (Z.ltb_spec i 6) as [Hlt | Hge].
  - rewrite compose_testbit by lia. kill_bits. f_equal; lia.
  - kill_bits. reflexivity.
Qed.

Hypothesis Hdc : 0 <= dc < 2 ^ 4.

Lemma ParseDataCenter_compose : ParseDataCenter (compose ts dc m seq) = dc.
Proof.
  rewrite ParseDataCenter_field. by_bits i Hi.
  destruct (Z.ltb_spec i 4) as [Hlt | Hge].
  - rewrite compose_testbit by lia. kill_bits. f_equal; lia.
  - kill_bits. reflexivity.
Qed.

(** The timestamp field holds the offset reduced to 41 bits. *)
Lemma ParseDateTime_compose :
  ParseDateTime (compose ts dc m seq) = (ts - start_timestamp) mod 2 ^ 41.
Proof.
  rewrite ParseDateTime_field. by_bits i Hi.
  destruct (Z.ltb_spec i 41) as [Hlt | Hge].
  - rewrite compose_testbit, Z.mod_pow2_bits_low by lia. kill_bits.
    f_equal; lia.
  - rewrite Z.mod_pow2_bits_high by lia. kill_bits. reflexivity.
Qed.

End Decode.

(** Whatever the identity, the sequence number does not reach the timestamp
    field. *)
Lemma ParseDateTime_compose_seq (ts dc m s1 s2 : Z) :
  0 <= s1 < 2 ^ 12 -> 0 <= s2 < 2 ^ 12 ->
  ParseDateTime (compose ts dc m s1) = ParseDateTime (compose ts dc m s2).
Proof.
  intros H1 H2. rewrite !ParseDateTime_field.
  apply Z.bits_inj'; intros i Hi. rewrite !field_testbit by lia.
  destruct (Z.ltb_spec i 41) as [Hlt | Hge].
  - rewrite !compose_testbit by lia.
    rewrite (Int64Facts.bits_above s1 12), (Int64Facts.bits_above s2 12) by lia.
    reflexivity.
  - now rewrite !andb_false_r.
Qed.

Lemma lor_bound (a b n : Z) :
  0 <= a < 2 ^ n -> 0 <= b < 2 ^ n -> 0 <= Z.lor a b < 2 ^ n.
Proof.
  intros Ha Hb.
  assert (Hnn : 0 <= Z.lor a b) by (apply Z.lor_nonneg; lia).
  split; [assumption |].
  destruct (Z.eq_dec (Z.lor a b) 0) as [-> | Hnz]; [lia |].
  apply Z.log2_lt_pow2; [lia |].
  rewrite Z.log2_lor by lia.
  assert (Hlog : forall x, 0 <= x < 2 ^ n -> x <> 0 -> Z.log2 x < n)
    by (intros x Hx Hx0; apply Z.log2_lt_pow2; lia).
  destruct (Z.eq_dec a 0) as [-> | Han]; destruct (Z.eq_dec b 0) as [-> | Hbn].
  - now rewrite Z.lor_0_l in Hnz.
  - rewrite Z.log2_nonpos, Z.max_r by (try apply Z.log2_nonneg; lia).
    apply Hlog; lia.
  - rewrite (Z.log2_nonpos 0), Z.max_l by (try apply Z.log2_nonneg; lia).
    apply Hlog; lia.
  - apply Z.max_lub_lt; apply Hlog; lia.
Qed.

(** Inside the 41-bit window of the timestamp the composed word keeps its
    sign bit clear. *)
Lemma compose_nonneg (ts dc m seq : Z) :
  0 <= ts - start_timestamp < 2 ^ 41 ->
  0 <= dc < 2 ^ 4 -> 0 <= m < 2 ^ 6 -> 0 <= seq < 2 ^ 12 ->
  0 <= compose ts dc m seq <= Int64.max_int.
Proof.
  intros Hts Hdc Hm Hseq. unfold compose, Int64.shl, Int64.sub.
  change timestamp_left with 22. change data_center_left with 18.
  change machine_left with 12.
  rewrite (Int64Facts.wrap64_small (ts - start_timestamp))
    by (unfold Int64.in_range, Int64.min_int, Int64.max_int; lia).
  rewrite !Z.shiftl_mul_pow2 by lia.
  rewrite !Int64Facts.wrap64_small
    by (unfold Int64.in_range, Int64.min_int, Int64.max_int; lia).
  enough (0 <= Z.lor (Z.lor (Z.lor ((ts - start_timestamp) * 2 ^ 22) (dc * 2 ^ 18))
                        (m * 2 ^ 12)) seq < 2 ^ 63)
    by (unfold Int64.max_int; lia).
  repeat apply lor_bound; lia.
Qed.

(** ** What one call of [NextId] does *)

(** The sequence number that follows [s] within a millisecond. *)
Definition next_sequence (s : Z) : Z := Z.land (Int64.add s 1) max_sequence.

Lemma wrap64_mod_pow2 (z n : Z) :
  0 <= n <= 64 -> Int64.wrap64 z mod 2 ^ n = z mod 2 ^ n.
Proof.
  intros Hn. apply Z.bits_inj'; intros i Hi.
  destruct (Z.ltb_spec i n) as [Hlt | Hge].
  - rewrite !Z.mod_pow2_bits_low by lia. apply Int64Facts.wrap64_testbit; lia.
  - now rewrite !Z.mod_pow2_bits_high by lia.
Qed.

Lemma next_sequence_mod (s : Z) : next_sequence s = (s + 1) mod 2 ^ 12.
Proof.
  unfold next_sequence, Int64.add.
  change max_sequence with (Z.ones 12).
  rewrite Z.land_ones by lia.
  apply wrap64_mod_pow2; lia.
Qed.

Lemma next_sequence_range (s : Z) : 0 <= next_sequence s < 2 ^ 12.
Proof.
  rewrite next_sequence_mod. apply Z.mod_pos_bound. lia.
Qed.

Section Loop.

Variable clock : nat -> Z.

(** The Go loop leaves with the next reading when the first one is not
    past [LastTimeStamp] ... *)
Lemma getNextMill_loop_break (fuel : nat) (mill : Z) (w : world) :
  mill <= LastTimeStamp (self w) ->
  getNextMill_loop clock (S fuel) mill w =
    Some (clock (reads w), mkWorld (self w) (S (reads w))).
Proof.
  intros Hle. cbn [getNextMill_loop]. unfold bind, this.
  destruct (Z.leb_spec mill (LastTimeStamp (self w))); [reflexivity | lia].
Qed.

(** ... and never leaves otherwise: the body changes neither [mill] nor
    [LastTimeStamp]. *)
Lemma getNextMill_loop_spin (fuel : nat) (mill : Z) (w : world) :
  LastTimeStamp (self w) < mill ->
  getNextMill_loop clock fuel mill w = None.
Proof.
  intros Hlt. induction fuel as [| n IH]; [reflexivity |].
  cbn [getNextMill_loop]. unfold bind, this.
  destruct (Z.leb_spec mill (LastTimeStamp (self w))); [lia | exact IH].
Qed.

Lemma getNextMill_break (fuel : nat) (w : world) :
  clock (reads w) <= LastTimeStamp (self w) ->
  getNextMill clock (S fuel) w =
    Some (clock (S (reads w)), mkWorld (self w) (S (S (reads w)))).
Proof.
  intros Hle. unfold getNextMill, bind, getNewTimeStamp.
  now rewrite getNextMill_loop_break.
Qed.

Lemma getNextMill_spin (fuel : nat) (w : world) :
  LastTimeStamp (self w) < clock (reads w) ->
  getNextMill clock fuel w = None.
Proof.
  intros Hlt. unfold getNextMill, bind, getNewTimeStamp.
  now rewrite getNextMill_loop_spin.
Qed.

Lemma getNextMill_no_fuel (w : world) : getNextMill clock 0 w = None.
Proof. reflexivity. Qed.

End Loop.

Section Calls.

Variable clock : nat -> Z.
Variable fuel : nat.
Variable w : world.

Let p := self w.
Let t := clock (reads w).

Ltac run := unfold NextId, bind, getNewTimeStamp, this, ret,
              set_Sequence, set_LastTimeStamp; cbn [self reads fst snd
              DataCenterId MachineId Sequence LastTimeStamp].

Lemma NextId_backwards :
  t < LastTimeStamp p ->
  NextId clock fuel w = Some ((0, Some err_clock), mkWorld p (S (reads w))).
Proof.
  intros Hlt. run.
  destruct (Z.ltb_spec (clock (reads w)) (LastTimeStamp (self w)));
    [reflexivity | subst p t; lia].
Qed.

Lemma NextId_fresh :
  LastTimeStamp p < t ->
  NextId clock fuel w =
    Some ((compose t (DataCenterId p) (MachineId p) 0, None),
          mkWorld (mkSnowFlakeId (DataCenterId p) (MachineId p) 0 t)
                  (S (reads w))).
Proof.
  intros Hlt. run.
  destruct (Z.ltb_spec (clock (reads w)) (LastTimeStamp (self w)));
    [subst p t; lia |].
  destruct (Z.eqb_spec (clock (reads w)) (LastTimeStamp (self w)));
    [subst p t; lia |].
  reflexivity.
Qed.

Lemma NextId_same :
  t = LastTimeStamp p -> next_sequence (Sequence p) <> 0 ->
  NextId clock fuel w =
    Some ((compose t (DataCenterId p) (MachineId p) (next_sequence (Sequence p)),
           None),
          mkWorld (mkSnowFlakeId (DataCenterId p) (MachineId p)
                     (next_sequence (Sequence p)) t)
                  (S (reads w))).
Proof.
  intros Heq Hnz. run.
  destruct (Z.ltb_spec (clock (reads w)) (LastTimeStamp (self w)));
    [subst p t; lia |].
  destruct (Z.eqb_spec (clock (reads w)) (LastTimeStamp (self w)));
    [| subst p t; lia].
  fold (next_sequence (Sequence (self w))).
  destruct (Z.eqb_spec (next_sequence (Sequence (self w))) 0);
    [subst p; lia |].
  reflexivity.
Qed.

(** The sequence wrapped and the clock, read again, is still not past
    [LastTimeStamp]: the Go loop takes one more reading and uses it. *)
(** The sequence wrapped and the clock, read again, is still not past
    [LastTimeStamp]: the Go loop takes one more reading and uses it. *)
Lemma NextId_wrap_reread :
  t = LastTimeStamp p -> next_sequence (Sequence p) = 0 ->
  clock (S (reads w)) <= LastTimeStamp p -> fuel <> O ->
  NextId clock fuel w =
    Some ((compose (clock (S (S (reads w)))) (DataCenterId p) (MachineId p) 0,
           None),
          mkWorld (mkSnowFlakeId (DataCenterId p) (MachineId p) 0
                     (clock (S (S (reads w)))))
                  (S (S (S (reads w))))).
Proof.
  intros Heq Hz Hle Hfuel. destruct fuel as [| n]; [congruence |]. run.
  destruct (Z.ltb_spec (clock (reads w)) (LastTimeStamp (self w)));
    [subst p t; lia |].
  destruct (Z.eqb_spec (clock (reads w)) (LastTimeStamp (self w)));
    [| subst p t; lia].
  fold (next_sequence (Sequence (self w))).
  destruct (Z.eqb_spec (next_sequence (Sequence (self w))) 0);
    [| subst p; lia].
  rewrite getNextMill_break by exact Hle.
  subst p. cbn [self reads]. rewrite Hz. reflexivity.
Qed.

(** The sequence wrapped and the clock, read again, has moved on: the Go
    loop spins and the call never returns. *)
Lemma NextId_wrap_spin :
  t = LastTimeStamp p -> next_sequence (Sequence p) = 0 ->
  LastTimeStamp p < clock (S (reads w)) ->
  NextId clock fuel w = None.
Proof.
  intros Heq Hz Hlt. run.
  destruct (Z.ltb_spec (clock (reads w)) (LastTimeStamp (self w)));
    [subst p t; lia |].
  destruct (Z.eqb_spec (clock (reads w)) (LastTimeStamp (self w)));
    [| subst p t; lia].
  fold (next_sequence (Sequence (self w))).
  destruct (Z.eqb_spec (next_sequence (Sequence (self w))) 0);
    [| subst p; lia].
  rewrite getNextMill_spin by exact Hlt. reflexivity.
Qed.

Lemma NextId_wrap_no_fuel :
  t = LastTimeStamp p -> next_sequence (Sequence p) = 0 ->
  NextId clock O w = None.
Proof.
  intros Heq Hz. run.
  destruct (Z.ltb_spec (clock (reads w)) (LastTimeStamp (self w)));
    [subst p t; lia |].
  destruct (Z.eqb_spec (clock (reads w)) (LastTimeStamp (self w)));
    [| subst p t; lia].
  fold (next_sequence (Sequence (self w))).
  destruct (Z.eqb_spec (next_sequence (Sequence (self w))) 0);
    [| subst p; lia].
  reflexivity.
Qed.

End Calls.

(** The four ways in which a call of [NextId] returns. *)
Inductive NextId_returns (clock : nat -> Z) (w : world) :
  Z * option error -> world -> Prop :=
| returns_backwards :
    clock (reads w) < LastTimeStamp (self w) ->
    NextId_returns clock w (0, Some err_clock) (mkWorld (self w) (S (reads w)))
| returns_fresh :
    LastTimeStamp (self w) < clock (reads w) ->
    NextId_returns clock w
      (compose (clock (reads w)) (DataCenterId (self w)) (MachineId (self w)) 0,
       None)
      (mkWorld (mkSnowFlakeId (DataCenterId (self w)) (MachineId (self w)) 0
                  (clock (reads w)))
               (S (reads w)))
| returns_same :
    clock (reads w) = LastTimeStamp (self w) ->
    next_sequence (Sequence (self w)) <> 0 ->
    NextId_returns clock w
      (compose (clock (reads w)) (DataCenterId (self w)) (MachineId (self w))
         (next_sequence (Sequence (self w))),
       None)
      (mkWorld (mkSnowFlakeId (DataCenterId (self w)) (MachineId (self w))
                  (next_sequence (Sequence (self w))) (clock (reads w)))
               (S (reads w)))
| returns_wrap :
    clock (reads w) = LastTimeStamp (self w) ->
    next_sequence (Sequence (self w)) = 0 ->
    clock (S (reads w)) <= LastTimeStamp (self w) ->
    NextId_returns clock w
      (compose (clock (S (S (reads w)))) (DataCenterId (self w))
         (MachineId (self w)) 0,
       None)
      (mkWorld (mkSnowFlakeId (DataCenterId (self w)) (MachineId (self w)) 0
                  (clock (S (S (reads w)))))
               (S (S (S (reads w))))).

Lemma NextId_inv (clock : nat -> Z) (fuel : nat) (w : world) r w' :
  NextId clock fuel w = Some (r, w') -> NextId_returns clock w r w'.
Proof.
  intros Hrun.
  destruct (Z.lt_trichotomy (clock (reads w)) (LastTimeStamp (self w)))
    as [Hlt | [Heq | Hgt]].
  - rewrite NextId_backwards in Hrun by exact Hlt.
    injection Hrun as <- <-. now constructor.
  - destruct (Z.eq_dec (next_sequence (Sequence (self w))) 0) as [Hz | Hnz].
    + destruct fuel as [| n];
        [now rewrite NextId_wrap_no_fuel in Hrun |].
      destruct (Z.le_gt_cases (clock (S (reads w))) (LastTimeStamp (self w)))
        as [Hle | Hlt].
      * rewrite NextId_wrap_reread in Hrun by (assumption || discriminate).
        injection Hrun as <- <-. now constructor.
      * now rewrite NextId_wrap_spin in Hrun.
    + rewrite NextId_same in Hrun by assumption.
      injection Hrun as <- <-. now constructor.
  - rewrite NextId_fresh in Hrun by exact Hgt.
    injection Hrun as <- <-. now constructor.
Qed.

(** With one unit of fuel every way of returning is taken by the code. *)
Lemma NextId_complete (clock : nat -> Z) (fuel : nat) (w : world) r w' :
  NextId_returns clock w r w' -> NextId clock (S fuel) w = Some (r, w').
Proof.
  intros [Hlt | Hgt | Heq Hnz | Heq Hz Hle].
  - now apply NextId_backwards.
  - now apply NextId_fresh.
  - now apply NextId_same.
  - now apply NextId_wrap_reread.
Qed.

(** A call that returns an id stamps it with the fields it leaves in the
    generator; the identity is not touched. *)
Lemma NextId_ok (clock : nat -> Z) (fuel : nat) (w : world) id w' :
  NextId clock fuel w = Some ((id, None), w') ->
  id = compose (LastTimeStamp (self w')) (DataCenterId (self w))
         (MachineId (self w)) (Sequence (self w'))
  /\ DataCenterId (self w') = DataCenterId (self w)
  /\ MachineId (self w') = MachineId (self w)
  /\ 0 <= Sequence (self w') < 2 ^ 12.
Proof.
  intros Hrun. apply NextId_inv in Hrun.
  pose proof (next_sequence_range (Sequence (self w))).
  inversion Hrun; subst; cbn [self Sequence LastTimeStamp DataCenterId MachineId];
    repeat split; lia.
Qed.

Lemma NextId_identity (clock : nat -> Z) (fuel : nat) (w : world) r w' :
  NextId clock fuel w = Some (r, w') ->
  DataCenterId (self w') = DataCenterId (self w)
  /\ MachineId (self w') = MachineId (self w)
  /\ (0 <= Sequence (self w) < 2 ^ 12 -> 0 <= Sequence (self w') < 2 ^ 12).
Proof.
  intros Hrun. apply NextId_inv in Hrun.
  pose proof (next_sequence_range (Sequence (self w))).
  inversion Hrun; subst; cbn [self Sequence LastTimeStamp DataCenterId MachineId];
    repeat split; lia.
Qed.

(** ** Generators that the program can build *)

(** The states of a generator made by [NewInstance dc m] without an error and
    then driven by calls of [NextId], against any clock. *)
Inductive reachable (dc m : Z) : snowFlakeId -> Prop :=
| reach_new (sf : snowFlakeId) :
    NewInstance dc m = (sf, None) -> reachable dc m sf
| reach_next (clock : nat -> Z) (fuel : nat) (w : world) r w' :
    reachable dc m (self w) ->
    NextId clock fuel w = Some (r, w') ->
    reachable dc m (self w').

Lemma NewInstance_ok (dc m : Z) (sf : snowFlakeId) :
  NewInstance dc m = (sf, None) ->
  0 <= dc < 2 ^ 4 /\ 0 <= m < 2 ^ 6 /\ sf = mkSnowFlakeId dc m 0 (-1).
Proof.
  unfold NewInstance.
  change max_data_center_num with 15. change max_machine_num with 63.
  destruct (Z.gtb_spec dc 15); destruct (Z.ltb_spec dc 0);
    cbn [orb]; try discriminate.
  destruct (Z.gtb_spec m 63); destruct (Z.ltb_spec m 0);
    cbn [orb]; try discriminate.
  intros [= <-]. cbn [Sequence LastTimeStamp]. repeat split; lia.
Qed.

Lemma reachable_invariant (dc m : Z) (sf : snowFlakeId) :
  reachable dc m sf ->
  0 <= dc < 2 ^ 4 /\ 0 <= m < 2 ^ 6
  /\ DataCenterId sf = dc /\ MachineId sf = m
  /\ 0 <= Sequence sf < 2 ^ 12.
Proof.
  induction 1 as [sf Hnew | clock fuel w r w' _ IH Hrun].
  - apply NewInstance_ok in Hnew as (Hdc & Hm & ->).
    cbn [DataCenterId MachineId Sequence]. repeat split; lia.
  - destruct IH as (Hdc & Hm & Hd & Hmm & Hs).
    apply NextId_identity in Hrun as (Hd' & Hm' & Hs').
    repeat split; try lia; now apply Hs'.
Qed.

(** * The claims *)

(** A clock stuck at one millisecond of November 2023. *)
Definition T0 : Z := 1700000000000.

(** ** C1: decoding an id gives back what it was composed from *)

(** C1 (as amended).  For a generator built by [NewInstance dc m] and any id
    that a call of [NextId] returns: the id is the word composed from the
    timestamp and the sequence number the call leaves in the generator;
    [ParseDataCenter] gives [dc], [ParseMachineId] gives [m], [ParseSequence]
    gives that sequence number; [ParseDateTime] gives the millisecond offset
    reduced modulo [2 ^ 41], hence the offset itself when it lies in
    [0, 2 ^ 41). *)
Theorem C1_round_trip (dc m : Z) (clock : nat -> Z) (fuel : nat)
    (w : world) (id : Z) (w' : world) :
  reachable dc m (self w) ->
  NextId clock fuel w = Some ((id, None), w') ->
  id = compose (LastTimeStamp (self w')) dc m (Sequence (self w'))
  /\ ParseDataCenter id = dc
  /\ ParseMachineId id = m
  /\ ParseSequence id = Sequence (self w')
  /\ ParseDateTime id = (LastTimeStamp (self w') - start_timestamp) mod 2 ^ 41
  /\ (0 <= LastTimeStamp (self w') - start_timestamp < 2 ^ 41 ->
      ParseDateTime id = LastTimeStamp (self w') - start_timestamp).
Proof.
  intros Hreach Hrun.
  apply reachable_invariant in Hreach as (Hdc & Hm & Hd & Hmm & _).
  apply NextId_ok in Hrun as (Hid & _ & _ & Hseq).
  rewrite Hd, Hmm in Hid. subst id.
  split; [reflexivity |].
  rewrite ParseDataCenter_compose, ParseMachineId_compose,
    ParseSequence_compose, ParseDateTime_compose by assumption.
  repeat split. intros Hwin. now apply Z.mod_small.
Qed.

Lemma C1_round_trip_witness :
  exists id w',
    reachable 2 1 (mkSnowFlakeId 2 1 0 (-1))
    /\ NextId (fun _ => T0) 1 (mkWorld (mkSnowFlakeId 2 1 0 (-1)) 0)
       = Some ((id, None), w')
    /\ ParseDataCenter id = 2 /\ ParseMachineId id = 1
    /\ ParseSequence id = 0 /\ ParseDateTime id = T0 - start_timestamp.
Proof.
  assert (Hreach : reachable 2 1 (mkSnowFlakeId 2 1 0 (-1)))
    by (apply reach_new; reflexivity).
  eexists. eexists. split; [exact Hreach |]. split; [reflexivity |].
  destruct (C1_round_trip 2 1 (fun _ => T0) 1
              (mkWorld (mkSnowFlakeId 2 1 0 (-1)) 0) _ _ Hreach eq_refl)
    as (_ & Hd & Hm & Hs & _ & Ht).
  split; [exact Hd |]. split; [exact Hm |]. split; [exact Hs |].
  apply Ht. vm_compute. split; [discriminate | reflexivity].
Defined.

(** C1 fails as stated: with the clock one millisecond before
    [start_timestamp] the offset used is [-1], and [ParseDateTime] returns
    [2 ^ 41 - 1]. *)
Lemma C1_round_trip_counterexample :
  exists sf id w',
    NewInstance 2 1 = (sf, None)
    /\ NextId (fun _ => start_timestamp - 1) 1 (mkWorld sf 0)
       = Some ((id, None), w')
    /\ LastTimeStamp (self w') - start_timestamp = -1
    /\ ParseDateTime id = 2 ^ 41 - 1.
Proof.
  eexists. eexists. eexists.
  split; [reflexivity |]. split; [reflexivity |]. split; reflexivity.
Qed.

(** ** C2: [getNextMill] *)

(** One round of the Java loop. *)
Lemma Java_getNextMill_loop_eq (clock : nat -> Z) (fuel : nat) (mill : Z)
    (sf : snowFlakeId) (n : nat) :
  Java.getNextMill_loop clock (S fuel) mill (mkWorld sf n) =
    if mill <=? LastTimeStamp sf
    then Java.getNextMill_loop clock fuel (clock n) (mkWorld sf (S n))
    else Some (mill, mkWorld sf n).
Proof.
  cbn [Java.getNextMill_loop]. unfold bind, this. cbn [self].
  destruct (mill <=? LastTimeStamp sf); reflexivity.
Qed.

(** The Java loop re-reads the clock until the reading is past
    [lastTimeStamp]: it returns as soon as the clock gets there. *)
Lemma Java_getNextMill_loop_terminates (clock : nat -> Z) (k : nat) :
  forall (n : nat) (sf : snowFlakeId) (mill : Z),
    LastTimeStamp sf < clock (n + k)%nat ->
    exists v n',
      Java.getNextMill_loop clock (S (S k)) mill (mkWorld sf n)
        = Some (v, mkWorld sf n')
      /\ LastTimeStamp sf < v.
Proof.
  induction k as [| k IH]; intros n sf mill Hk;
    rewrite Java_getNextMill_loop_eq;
    destruct (Z.leb_spec mill (LastTimeStamp sf)) as [Hle | Hgt];
    try (eexists; eexists; split; [reflexivity | assumption]).
  - rewrite Nat.add_0_r in Hk. rewrite Java_getNextMill_loop_eq.
    destruct (Z.leb_spec (clock n) (LastTimeStamp sf)); [lia |].
    eexists; eexists; split; [reflexivity | assumption].
  - apply (IH (S n) sf (clock n)).
    now replace (S n + k)%nat with (n + S k)%nat by lia.
Qed.

Lemma Java_getNextMill_terminates (clock : nat -> Z) (w : world) (k : nat) :
  LastTimeStamp (self w) < clock (reads w + k)%nat ->
  exists fuel v w',
    Java.getNextMill clock fuel w = Some (v, w')
    /\ LastTimeStamp (self w) < v /\ self w' = self w.
Proof.
  intros Hk. destruct w as [sf n]. cbn [self reads] in *.
  unfold Java.getNextMill, bind, getNewTimeStamp. cbn [self reads].
  destruct k as [| k].
  - rewrite Nat.add_0_r in Hk. exists 1%nat.
    rewrite Java_getNextMill_loop_eq.
    destruct (Z.leb_spec (clock n) (LastTimeStamp sf)); [lia |].
    eexists; eexists; repeat split; assumption.
  - destruct (Java_getNextMill_loop_terminates clock k (S n) sf (clock n))
      as (v & n' & Hrun & Hv).
    { now replace (S n + k)%nat with (n + S k)%nat by lia. }
    exists (S (S k)), v, (mkWorld sf n'). now repeat split.
Qed.

(** The Go loop does neither: as a general statement the claim is false of
    it. *)
Lemma getNextMill_not_as_specified :
  ~ (forall (clock : nat -> Z) (w : world),
       (exists k, LastTimeStamp (self w) < clock (reads w + k)%nat) ->
       exists fuel v w',
         getNextMill clock fuel w = Some (v, w')
         /\ LastTimeStamp (self w) < v).
Proof.
  intros Hclaim.
  destruct (Hclaim (fun _ => T0 + 1) (mkWorld (mkSnowFlakeId 2 1 0 T0) 0))
    as (fuel & v & w' & Hrun & _).
  - exists 0%nat. cbn [self LastTimeStamp]. lia.
  - rewrite getNextMill_spin in Hrun by (cbn [self LastTimeStamp]; lia).
    discriminate.
Qed.

(** C2 (the code at the failing inputs).  With [LastTimeStamp = T0]:
    when the first reading is already [T0 + 1] the Go [getNextMill] does not
    return, whatever the fuel; when the readings are [T0, T0, T0 + 1, ...]
    it returns the second reading [T0], which is not past [LastTimeStamp],
    although the clock exceeds it at the next reading. *)
Theorem C2_getNextMill_go :
  (forall fuel,
      getNextMill (fun _ => T0 + 1) fuel (mkWorld (mkSnowFlakeId 2 1 0 T0) 0)
      = None)
  /\ getNextMill (fun n => if (n <? 2)%nat then T0 else T0 + 1) 1
       (mkWorld (mkSnowFlakeId 2 1 0 T0) 0)
     = Some (T0, mkWorld (mkSnowFlakeId 2 1 0 T0) 2).
Proof.
  split.
  - intros fuel. apply getNextMill_spin. cbn [self LastTimeStamp]. lia.
  - reflexivity.
Qed.

(** ** C3: the clock error *)

(** C3.  [NextId] returns the error "Clock moved backwards" (with the zero
    id) when the clock reading it starts with is below [LastTimeStamp], and
    it returns an error in no other case. *)
Theorem C3_clock_error_iff (clock : nat -> Z) (fuel : nat) (w : world) :
  (clock (reads w) < LastTimeStamp (self w) ->
   NextId clock fuel w
   = Some ((0, Some err_clock), mkWorld (self w) (S (reads w))))
  /\ (forall id e w',
        NextId clock fuel w = Some ((id, Some e), w') ->
        clock (reads w) < LastTimeStamp (self w) /\ e = err_clock /\ id = 0).
Proof.
  split.
  - apply NextId_backwards.
  - intros id e w' Hrun. apply NextId_inv in Hrun.
    inversion Hrun; subst. now repeat split.
Qed.

Lemma C3_clock_error_iff_witness :
  NextId (fun _ => T0 - 1) 1 (mkWorld (mkSnowFlakeId 2 1 0 T0) 0)
  = Some ((0, Some err_clock), mkWorld (mkSnowFlakeId 2 1 0 T0) 1)
  /\ T0 - 1 < T0.
Proof.
  split.
  - apply (proj1 (C3_clock_error_iff (fun _ => T0 - 1) 1
                    (mkWorld (mkSnowFlakeId 2 1 0 T0) 0))).
    reflexivity.
  - apply (proj2 (C3_clock_error_iff (fun _ => T0 - 1) 1
                    (mkWorld (mkSnowFlakeId 2 1 0 T0) 0))
             0 err_clock (mkWorld (mkSnowFlakeId 2 1 0 T0) 1)).
    reflexivity.
Defined.

(** ** C4: two calls within one millisecond *)

(** C4 (as amended).  When a call of [NextId] that returned an id is followed
    by one that reads the millisecond the first id was stamped with and
    returns an id too, the second sequence number is the first plus one
    modulo [2 ^ 12]; and unless it wrapped to 0 the two timestamp offsets are
    equal. *)
Theorem C4_same_millisecond (clock : nat -> Z) (fuel : nat)
    (w : world) (id1 : Z) (w1 : world) (id2 : Z) (w2 : world) :
  NextId clock fuel w = Some ((id1, None), w1) ->
  NextId clock fuel w1 = Some ((id2, None), w2) ->
  clock (reads w1) = LastTimeStamp (self w1) ->
  ParseSequence id2 = (ParseSequence id1 + 1) mod 2 ^ 12
  /\ (ParseSequence id2 <> 0 -> ParseDateTime id2 = ParseDateTime id1).
Proof.
  intros Hfirst Hsecond Hsame.
  apply NextId_ok in Hfirst as (-> & Hd & Hm & Hs1).
  rewrite <- Hd, <- Hm.
  pose proof (next_sequence_range (Sequence (self w1))) as Hs2.
  rewrite (ParseSequence_compose _ _ _ _ Hs1), <- next_sequence_mod.
  apply NextId_inv in Hsecond.
  inversion Hsecond as [| Hgt | Heq Hnz | Heq Hz Hle]; subst.
  - lia.
  - rewrite (ParseSequence_compose _ _ _ _ Hs2), Hsame.
    split; [reflexivity |]. intros _.
    now apply ParseDateTime_compose_seq.
  - rewrite Hz, ParseSequence_compose by lia.
    split; [reflexivity | congruence].
Qed.

Lemma C4_same_millisecond_witness :
  exists id1 w1 id2 w2,
    NextId (fun _ => T0) 1 (mkWorld (mkSnowFlakeId 2 1 0 (-1)) 0)
      = Some ((id1, None), w1)
    /\ NextId (fun _ => T0) 1 w1 = Some ((id2, None), w2)
    /\ T0 = LastTimeStamp (self w1)
    /\ ParseSequence id2 = (ParseSequence id1 + 1) mod 2 ^ 12
    /\ ParseSequence id2 <> 0
    /\ ParseDateTime id2 = ParseDateTime id1.
Proof.
  eexists. eexists. eexists. eexists.
  split; [reflexivity |]. split; [reflexivity |]. split; [reflexivity |].
  destruct (C4_same_millisecond (fun _ => T0) 1
              (mkWorld (mkSnowFlakeId 2 1 0 (-1)) 0) _ _ _ _
              eq_refl eq_refl eq_refl) as [Hseq Hts].
  split; [exact Hseq |].
  assert (Hnz : ParseSequence 922048672538562561 <> 0) by discriminate.
  split; [exact Hnz | exact (Hts Hnz)].
Defined.

(** C4 fails as stated: drive a fresh generator through one millisecond.  The
    4096th call uses the last sequence number 4095; the 4097th reads the same
    millisecond, wraps to 0, reads the clock again and stamps its id with the
    next millisecond. *)
Lemma C4_same_millisecond_counterexample :
  let clock := fun n : nat => if (n <=? 4097)%nat then T0 else T0 + 1 in
  exists sf rs w1 id1 w2 id2 w3,
    NewInstance 2 1 = (sf, None)
    /\ NextIds clock 1 4095 (mkWorld sf 0) = Some (rs, w1)
    /\ NextId clock 1 w1 = Some ((id1, None), w2)
    /\ NextId clock 1 w2 = Some ((id2, None), w3)
    /\ clock (reads w1) = clock (reads w2)
    /\ clock (reads w2) = LastTimeStamp (self w2)
    /\ ParseSequence id1 = 4095 /\ ParseSequence id2 = 0
    /\ ParseDateTime id1 = T0 - start_timestamp
    /\ ParseDateTime id2 = T0 + 1 - start_timestamp
    /\ ParseDateTime id2 <> ParseDateTime id1.
Proof.
  intros clock. do 7 eexists.
  split; [reflexivity |].
  split; [vm_compute; reflexivity |].
  split; [vm_compute; reflexivity |].
  split; [vm_compute; reflexivity |].
  repeat split; vm_compute; (reflexivity || discriminate).
Qed.

(** ** C5: a new millisecond resets the sequence *)

(** C5.  A call of [NextId] that reads a millisecond past [LastTimeStamp]
    returns an id whose decoded sequence is 0 and leaves [Sequence = 0]. *)
Theorem C5_sequence_reset (clock : nat -> Z) (fuel : nat) (w : world) :
  LastTimeStamp (self w) < clock (reads w) ->
  exists id w',
    NextId clock fuel w = Some ((id, None), w')
    /\ ParseSequence id = 0
    /\ Sequence (self w') = 0.
Proof.
  intros Hgt. eexists. eexists.
  split; [now apply NextId_fresh |].
  split; [| reflexivity].
  apply ParseSequence_compose. lia.
Qed.

Lemma C5_sequence_reset_witness :
  T0 < T0 + 1
  /\ exists id w',
       NextId (fun _ => T0 + 1) 0 (mkWorld (mkSnowFlakeId 2 1 7 T0) 0)
       = Some ((id, None), w')
       /\ ParseSequence id = 0 /\ Sequence (self w') = 0.
Proof.
  split; [reflexivity |].
  apply (C5_sequence_reset (fun _ => T0 + 1) 0
           (mkWorld (mkSnowFlakeId 2 1 7 T0) 0)).
  reflexivity.
Defined.

(** ** C6: construction *)

(** C6.  [NewInstance] returns an error exactly when [dataCenterId] is
    negative or above [2 ^ 4 - 1] or [machineId] is negative or above
    [2 ^ 6 - 1]; otherwise it returns the generator with the given identity,
    [Sequence = 0] and [LastTimeStamp = -1]. *)
Theorem C6_NewInstance (dataCenterId machineId : Z) :
  (snd (NewInstance dataCenterId machineId) <> None <->
   dataCenterId < 0 \/ dataCenterId > 2 ^ 4 - 1
   \/ machineId < 0 \/ machineId > 2 ^ 6 - 1)
  /\ (0 <= dataCenterId <= 2 ^ 4 - 1 -> 0 <= machineId <= 2 ^ 6 - 1 ->
      NewInstance dataCenterId machineId
      = (mkSnowFlakeId dataCenterId machineId 0 (-1), None)).
Proof.
  unfold NewInstance.
  change max_data_center_num with 15. change max_machine_num with 63.
  destruct (Z.gtb_spec dataCenterId 15); destruct (Z.ltb_spec dataCenterId 0);
    cbn [orb snd];
    try (split; [split; [lia | discriminate] | lia]).
  destruct (Z.gtb_spec machineId 63); destruct (Z.ltb_spec machineId 0);
    cbn [orb snd];
    try (split; [split; [lia | discriminate] | lia]).
  split; [split; [congruence | lia] | reflexivity].
Qed.

Lemma C6_NewInstance_witness :
  NewInstance 15 63 = (mkSnowFlakeId 15 63 0 (-1), None)
  /\ snd (NewInstance 16 0) <> None /\ snd (NewInstance 0 (-1)) <> None.
Proof.
  split; [| split].
  - apply (proj2 (C6_NewInstance 15 63)); lia.
  - apply (proj1 (C6_NewInstance 16 0)). lia.
  - apply (proj1 (C6_NewInstance 0 (-1))). lia.
Defined.

(** ** C7: the sign bit *)

(** C7 (as amended).  For a generator built by [NewInstance dc m], an id
    that [NextId] stamps with a millisecond in
    [start_timestamp, start_timestamp + 2 ^ 41) is a non-negative [int64]:
    its bit 63 is 0. *)
Theorem C7_sign_bit (dc m : Z) (clock : nat -> Z) (fuel : nat)
    (w : world) (id : Z) (w' : world) :
  reachable dc m (self w) ->
  NextId clock fuel w = Some ((id, None), w') ->
  0 <= LastTimeStamp (self w') - start_timestamp < 2 ^ 41 ->
  0 <= id <= Int64.max_int /\ Z.testbit id 63 = false.
Proof.
  intros Hreach Hrun Hwin.
  apply reachable_invariant in Hreach as (Hdc & Hm & Hd & Hmm & _).
  apply NextId_ok in Hrun as (-> & _ & _ & Hseq).
  rewrite Hd, Hmm.
  pose proof (compose_nonneg _ dc m _ Hwin Hdc Hm Hseq) as Hid.
  split; [exact Hid |].
  apply (Int64Facts.bits_above _ 63); unfold Int64.max_int in Hid; lia.
Qed.

Lemma C7_sign_bit_witness :
  exists id w',
    reachable 2 1 (mkSnowFlakeId 2 1 0 (-1))
    /\ NextId (fun _ => T0) 1 (mkWorld (mkSnowFlakeId 2 1 0 (-1)) 0)
       = Some ((id, None), w')
    /\ 0 <= LastTimeStamp (self w') - start_timestamp < 2 ^ 41
    /\ 0 <= id <= Int64.max_int /\ Z.testbit id 63 = false.
Proof.
  assert (Hreach : reachable 2 1 (mkSnowFlakeId 2 1 0 (-1)))
    by (apply reach_new; reflexivity).
  assert (Hwin : 0 <= T0 - start_timestamp < 2 ^ 41)
    by (vm_compute; split; [discriminate | reflexivity]).
  eexists. eexists. split; [exact Hreach |]. split; [reflexivity |].
  split; [exact Hwin |].
  exact (C7_sign_bit 2 1 (fun _ => T0) 1
           (mkWorld (mkSnowFlakeId 2 1 0 (-1)) 0) _ _ Hreach eq_refl Hwin).
Defined.

(** C7 fails as stated: a clock before [start_timestamp] (here by one
    millisecond) and a clock [2 ^ 41] milliseconds after it (in 2086) both
    give a negative id. *)
Lemma C7_sign_bit_counterexample :
  exists sf id1 w1 id2 w2,
    NewInstance 2 1 = (sf, None)
    /\ NextId (fun _ => start_timestamp - 1) 1 (mkWorld sf 0)
       = Some ((id1, None), w1)
    /\ id1 < 0
    /\ NextId (fun _ => start_timestamp + 2 ^ 41) 1 (mkWorld sf 0)
       = Some ((id2, None), w2)
    /\ id2 < 0 /\ Z.testbit id2 63 = true.
Proof.
  do 5 eexists.
  split; [reflexivity |]. split; [reflexivity |]. split; [reflexivity |].
  split; [reflexivity |]. split; reflexivity.
Qed.

(** ** C8: distinct ids *)

(** The mutex makes every run of concurrent calls one of [NextIds]: the calls
    take the lock one after the other and each runs alone. *)

(** C8 (the code at the failing input).  4097 calls of [NextId] on a fresh
    generator, all within one millisecond: every call returns an id, and the
    last id is the first one again. *)
Theorem C8_duplicate_id :
  exists sf rs w',
    NewInstance 2 1 = (sf, None)
    /\ NextIds (fun _ => T0) 1 4097 (mkWorld sf 0) = Some (rs, w')
    /\ List.length rs = 4097%nat
    /\ forallb (fun r => match snd r with None => true | Some _ => false end) rs
       = true
    /\ nth_error (map fst rs) 0 = Some 922048672538562560
    /\ nth_error (map fst rs) 4096 = Some 922048672538562560
    /\ ~ NoDup (map fst rs).
Proof.
  do 3 eexists.
  split; [reflexivity |].
  split; [vm_compute; reflexivity |].
  split; [vm_compute; reflexivity |].
  split; [vm_compute; reflexivity |].
  match goal with
  | |- nth_error ?l 0 = ?a /\ nth_error ?l 4096 = ?a /\ _ =>
      assert (H0 : nth_error l 0 = a) by (vm_compute; reflexivity);
      assert (H1 : nth_error l 4096 = a) by (vm_compute; reflexivity);
      assert (Hlen : (0 < List.length l)%nat)
        by (apply Nat.ltb_lt; vm_compute; reflexivity)
  end.
  split; [exact H0 |]. split; [exact H1 |].
  intros Hnd.
  pose proof (proj1 (NoDup_nth_error _) Hnd 0%nat 4096%nat Hlen) as Heq.
  rewrite H0, H1 in Heq. specialize (Heq eq_refl). discriminate.
Qed.

(** ** C9: the decoders are total and bounded *)

(** C9.  On every [int64] each decoder returns a value within its field:
    4 bits of data center, 6 of machine, 12 of sequence, 41 of timestamp. *)
Theorem C9_decode_bounds (id : Z) :
  Int64.in_range id ->
  0 <= ParseDataCenter id <= 2 ^ 4 - 1
  /\ 0 <= ParseMachineId id <= 2 ^ 6 - 1
  /\ 0 <= ParseSequence id <= 2 ^ 12 - 1
  /\ 0 <= ParseDateTime id <= 2 ^ 41 - 1.
Proof.
  intros _.
  rewrite ParseDataCenter_field, ParseMachineId_field, ParseSequence_field,
    ParseDateTime_field.
  repeat split; apply field_range; lia.
Qed.

Lemma C9_decode_bounds_witness :
  Int64.in_range (-1)
  /\ 0 <= ParseDataCenter (-1) <= 2 ^ 4 - 1
  /\ 0 <= ParseMachineId (-1) <= 2 ^ 6 - 1
  /\ 0 <= ParseSequence (-1) <= 2 ^ 12 - 1
  /\ 0 <= ParseDateTime (-1) <= 2 ^ 41 - 1.
Proof.
  assert (Hin : Int64.in_range (-1))
    by (vm_compute; split; discriminate).
  split; [exact Hin | exact (C9_decode_bounds (-1) Hin)].
Defined.

(** ** C10: the clock error leaves the generator alone *)

(** C10.  A call of [NextId] that returns an error leaves every field of the
    generator as it was. *)
Theorem C10_error_keeps_state (clock : nat -> Z) (fuel : nat)
    (w : world) (id : Z) (e : error) (w' : world) :
  NextId clock fuel w = Some ((id, Some e), w') ->
  self w' = self w
  /\ Sequence (self w') = Sequence (self w)
  /\ LastTimeStamp (self w') = LastTimeStamp (self w)
  /\ DataCenterId (self w') = DataCenterId (self w)
  /\ MachineId (self w') = MachineId (self w).
Proof.
  intros Hrun. apply NextId_inv in Hrun.
  inversion Hrun; subst. now repeat split.
Qed.

Lemma C10_error_keeps_state_witness :
  exists id e w',
    NextId (fun _ => T0 - 1) 1 (mkWorld (mkSnowFlakeId 2 1 5 T0) 0)
    = Some ((id, Some e), w')
    /\ self w' = mkSnowFlakeId 2 1 5 T0.
Proof.
  do 3 eexists. split; [reflexivity |].
  exact (proj1 (C10_error_keeps_state (fun _ => T0 - 1) 1
                  (mkWorld (mkSnowFlakeId 2 1 5 T0) 0) _ _ _ eq_refl)).
Defined.

(** * Further properties of the Go package *)

From Stdlib Require Import Sorted.

(** ** Composed words as sums *)

(** A word with its [k] low bits clear and a value below [2 ^ k] have no bit
    in common: or-ing them adds them. *)
Lemma lor_add_disjoint (a b k : Z) :
  0 <= k -> 0 <= b < 2 ^ k ->
  Z.lor (a * 2 ^ k) b = a * 2 ^ k + b.
Proof.
  intros Hk Hb.
  assert (Hland : Z.land (a * 2 ^ k) b = 0).
  { apply Z.bits_inj'; intros i Hi.
    rewrite Z.land_spec, Z.bits_0, <- Z.shiftl_mul_pow2 by assumption.
    destruct (Z.ltb_spec i k) as [Hlt | Hge].
    - now rewrite Z.shiftl_spec_low.
    - rewrite (Int64Facts.bits_above b k i) by assumption.
      apply andb_false_r. }
  now rewrite <- Z.lxor_lor, Z.add_nocarry_lxor.
Qed.

(** Inside the window the composed word is the sum of its four fields. *)
Lemma compose_sum (ts dc m seq : Z) :
  0 <= ts - start_timestamp < 2 ^ 41 ->
  0 <= dc < 2 ^ 4 -> 0 <= m < 2 ^ 6 -> 0 <= seq < 2 ^ 12 ->
  compose ts dc m seq =
    (ts - start_timestamp) * 2 ^ 22 + dc * 2 ^ 18 + m * 2 ^ 12 + seq.
Proof.
  intros Hts Hdc Hm Hseq. unfold compose, Int64.shl, Int64.sub.
  change timestamp_left with 22. change data_center_left with 18.
  change machine_left with 12.
  rewrite (Int64Facts.wrap64_small (ts - start_timestamp))
    by (unfold Int64.in_range, Int64.min_int, Int64.max_int; lia).
  rewrite !Z.shiftl_mul_pow2 by lia.
  rewrite !Int64Facts.wrap64_small
    by (unfold Int64.in_range, Int64.min_int, Int64.max_int; lia).
  rewrite (lor_add_disjoint _ (dc * 2 ^ 18) 22) by lia.
  replace ((ts - start_timestamp) * 2 ^ 22 + dc * 2 ^ 18)
    with (((ts - start_timestamp) * 2 ^ 4 + dc) * 2 ^ 18) by lia.
  rewrite (lor_add_disjoint _ (m * 2 ^ 12) 18) by lia.
  replace (((ts - start_timestamp) * 2 ^ 4 + dc) * 2 ^ 18 + m * 2 ^ 12)
    with (((ts - start_timestamp) * 2 ^ 10 + dc * 2 ^ 6 + m) * 2 ^ 12) by lia.
  rewrite (lor_add_disjoint _ seq 12) by lia.
  lia.
Qed.

(** The lexicographic order of (timestamp, sequence) is the order of the
    composed words. *)
Lemma compose_lex_lt (ts1 s1 ts2 s2 dc m : Z) :
  0 <= ts1 - start_timestamp < 2 ^ 41 ->
  0 <= ts2 - start_timestamp < 2 ^ 41 ->
  0 <= dc < 2 ^ 4 -> 0 <= m < 2 ^ 6 ->
  0 <= s1 < 2 ^ 12 -> 0 <= s2 < 2 ^ 12 ->
  ts1 < ts2 \/ (ts1 = ts2 /\ s1 < s2) ->
  compose ts1 dc m s1 < compose ts2 dc m s2.
Proof.
  intros H1 H2 Hdc Hm Hs1 Hs2 Hlex.
  rewrite !compose_sum by assumption. lia.
Qed.

(** The sequence number sits in the 12 low bits, which nothing else
    touches. *)
Lemma compose_seq_add (ts dc m seq : Z) :
  0 <= seq < 2 ^ 12 ->
  compose ts dc m seq = compose ts dc m 0 + seq.
Proof.
  intros Hseq. unfold compose.
  set (hi := Z.lor (Z.lor (Int64.shl _ _) _) _).
  rewrite Z.lor_0_r.
  assert (Hhi : hi = Z.shiftr hi 12 * 2 ^ 12).
  { rewrite <- Z.shiftl_mul_pow2 by lia.
    apply Z.bits_inj'; intros i Hi.
    destruct (Z.ltb_spec i 12) as [Hlt | Hge].
    - rewrite Z.shiftl_spec_low by assumption.
      subst hi. rewrite !Z.lor_spec.
      change timestamp_left with 22. change data_center_left with 18.
      change machine_left with 12.
      rewrite !Int64Facts.shl_testbit by lia.
      now rewrite !Z.testbit_neg_r by lia.
    - rewrite Z.shiftl_spec, Z.shiftr_spec by lia.
      f_equal; lia. }
  rewrite Hhi. now apply lor_add_disjoint.
Qed.

(** ** What the decoders keep *)

Ltac field_bits :=
  repeat match goal with
  | |- context [Z.testbit (field ?x ?k ?w) ?j] =>
      first [ rewrite (Z.testbit_neg_r (field x k w) j) by lia
            | rewrite (field_testbit x k w j) by lia ]
  end;
  repeat match goal with
  | |- context [?a <? ?b] =>
      first [ rewrite (proj2 (Z.ltb_lt a b)) by lia
            | rewrite (proj2 (Z.ltb_ge a b)) by lia ]
  end;
  rewrite ?andb_true_r, ?andb_false_r, ?orb_false_l, ?orb_false_r.

(** X1.  Composing the four decoded fields of any word gives the word back
    without its sign bit (and above): the decoders drop bit 63 and nothing
    else, so a non-negative [int64] is recovered from its fields. *)
Theorem X1_decode_then_compose (id : Z) :
  compose (start_timestamp + ParseDateTime id) (ParseDataCenter id)
          (ParseMachineId id) (ParseSequence id)
  = id mod 2 ^ 63.
Proof.
  rewrite ParseDateTime_field, ParseDataCenter_field, ParseMachineId_field,
    ParseSequence_field.
  pose proof (field_range id 22 41 ltac:(lia) ltac:(lia)) as Ht.
  pose proof (field_range id 18 4 ltac:(lia) ltac:(lia)) as Hd.
  pose proof (field_range id 12 6 ltac:(lia) ltac:(lia)) as Hm.
  pose proof (field_range id 0 12 ltac:(lia) ltac:(lia)) as Hs.
  apply Z.bits_inj'; intros i Hi.
  destruct (Z.ltb_spec i 63) as [Hlt | Hge].
  - rewrite compose_testbit, Z.mod_pow2_bits_low by lia.
    rewrite Z.add_simpl_l.
    assert (Hcase : i < 12 \/ 12 <= i < 18 \/ 18 <= i < 22 \/ 22 <= i) by lia.
    destruct Hcase as [Hc | [Hc | [Hc | Hc]]]; field_bits; f_equal; lia.
  - rewrite Z.mod_pow2_bits_high by lia.
    apply (Int64Facts.bits_above _ 63); [| assumption].
    pose proof (compose_nonneg (start_timestamp + field id 22 41)
                  (field id 18 4) (field id 12 6) (field id 0 12)) as Hnn.
    unfold Int64.max_int in Hnn. lia.
Qed.

(** ** Identities keep generators apart *)

Lemma NextId_decode_identity (dc m : Z) (clock : nat -> Z) (fuel : nat)
    (w : world) (id : Z) (w' : world) :
  reachable dc m (self w) ->
  NextId clock fuel w = Some ((id, None), w') ->
  ParseDataCenter id = dc /\ ParseMachineId id = m.
Proof.
  intros Hreach Hrun.
  apply reachable_invariant in Hreach as (Hdc & Hm & Hd & Hmm & _).
  apply NextId_ok in Hrun as (-> & _ & _ & Hseq).
  rewrite Hd, Hmm.
  now rewrite ParseDataCenter_compose, ParseMachineId_compose.
Qed.

(** X2.  Two generators built with different identities never issue the
    same id, whatever their clocks do. *)
Theorem X2_identities_apart (dc1 m1 dc2 m2 : Z)
    (clock1 clock2 : nat -> Z) (fuel1 fuel2 : nat)
    (w1 w2 : world) (id1 id2 : Z) (w1' w2' : world) :
  reachable dc1 m1 (self w1) ->
  reachable dc2 m2 (self w2) ->
  NextId clock1 fuel1 w1 = Some ((id1, None), w1') ->
  NextId clock2 fuel2 w2 = Some ((id2, None), w2') ->
  (dc1, m1) <> (dc2, m2) ->
  id1 <> id2.
Proof.
  intros Hr1 Hr2 Hrun1 Hrun2 Hne Heq.
  destruct (NextId_decode_identity _ _ _ _ _ _ _ Hr1 Hrun1) as [Hd1 Hm1].
  destruct (NextId_decode_identity _ _ _ _ _ _ _ Hr2 Hrun2) as [Hd2 Hm2].
  apply Hne. congruence.
Qed.

Lemma X2_identities_apart_witness :
  exists id1 w1' id2 w2',
    NextId (fun _ => T0) 1 (mkWorld (mkSnowFlakeId 2 1 0 (-1)) 0)
      = Some ((id1, None), w1')
    /\ NextId (fun _ => T0) 1 (mkWorld (mkSnowFlakeId 2 3 0 (-1)) 0)
      = Some ((id2, None), w2')
    /\ id1 <> id2.
Proof.
  do 4 eexists. split; [reflexivity |]. split; [reflexivity |].
  apply (X2_identities_apart 2 1 2 3 (fun _ => T0) (fun _ => T0) 1 1
           (mkWorld (mkSnowFlakeId 2 1 0 (-1)) 0)
           (mkWorld (mkSnowFlakeId 2 3 0 (-1)) 0) _ _ _ _
           (reach_new 2 1 _ eq_refl) (reach_new 2 3 _ eq_refl)
           eq_refl eq_refl).
  discriminate.
Defined.

(** ** One millisecond holds 4096 ids *)

(** [zrange a n] is [a, a + 1, ..., a + n - 1]. *)
Fixpoint zrange (a : Z) (n : nat) : list Z :=
  match n with
  | O => []
  | S n' => a :: zrange (a + 1) n'
  end.

Lemma zrange_In (n : nat) : forall a x,
  In x (zrange a n) -> a <= x < a + Z.of_nat n.
Proof.
  induction n as [| n IH]; intros a x Hin; [destruct Hin |].
  destruct Hin as [<- | Hin]; [lia |].
  apply IH in Hin. lia.
Qed.

Lemma zrange_NoDup (n : nat) : forall a, NoDup (zrange a n).
Proof.
  induction n as [| n IH]; intros a; constructor; [| apply IH].
  intros Hin. apply zrange_In in Hin. lia.
Qed.

Lemma next_sequence_succ (s : Z) :
  0 <= s -> s + 1 <= 4095 -> next_sequence s = s + 1.
Proof.
  intros H0 H1. rewrite next_sequence_mod. apply Z.mod_small. lia.
Qed.

(** Further calls within the millisecond of [LastTimeStamp] count the
    sequence up. *)
Lemma NextIds_same_ms (clock : nat -> Z) (fuel : nat) (n : nat) :
  forall w : world,
    (forall k, (k < n)%nat ->
               clock (reads w + k)%nat = LastTimeStamp (self w)) ->
    0 <= Sequence (self w) ->
    Sequence (self w) + Z.of_nat n <= 4095 ->
    exists w',
      NextIds clock fuel n w
      = Some (map (fun s => (compose (LastTimeStamp (self w))
                                     (DataCenterId (self w))
                                     (MachineId (self w)) s, None))
                  (zrange (Sequence (self w) + 1) n),
              w').
Proof.
  induction n as [| n IH]; intros w Hclock H0 Hn.
  - exists w. reflexivity.
  - assert (Ht : clock (reads w) = LastTimeStamp (self w))
      by (rewrite <- (Hclock 0%nat) by lia; f_equal; lia).
    assert (Hnext : next_sequence (Sequence (self w)) = Sequence (self w) + 1)
      by (apply next_sequence_succ; lia).
    cbn [NextIds]. unfold bind at 1.
    rewrite NextId_same by (rewrite ?Hnext; lia).
    rewrite Hnext, Ht.
    destruct (IH (mkWorld (mkSnowFlakeId (DataCenterId (self w))
                             (MachineId (self w)) (Sequence (self w) + 1)
                             (LastTimeStamp (self w)))
                    (S (reads w)))) as [w' Hrest].
    + intros k Hk. cbn [self reads LastTimeStamp].
      rewrite <- (Hclock (S k)) by lia. f_equal; lia.
    + cbn [self Sequence]. lia.
    + cbn [self Sequence]. lia.
    + cbn [self reads LastTimeStamp DataCenterId MachineId Sequence] in Hrest.
      exists w'. unfold bind. rewrite Hrest. reflexivity.
Qed.

(** X3.  The first [n <= 4096] calls that read one millisecond [T] past
    [LastTimeStamp] all return an id, with the sequence numbers
    [0, 1, ..., n - 1] in call order; the ids are pairwise distinct. *)
Theorem X3_millisecond_capacity (clock : nat -> Z) (fuel : nat) (n : nat)
    (w : world) (T : Z) :
  LastTimeStamp (self w) < T ->
  (forall k, (k < n)%nat -> clock (reads w + k)%nat = T) ->
  (n <= 4096)%nat ->
  exists rs w',
    NextIds clock fuel n w = Some (rs, w')
    /\ Forall (fun r => snd r = None) rs
    /\ map (fun r => ParseSequence (fst r)) rs = zrange 0 n
    /\ NoDup (map fst rs).
Proof.
  intros Hlt Hclock Hn.
  assert (Hshape : exists w',
    NextIds clock fuel n w
    = Some (map (fun s => (compose T (DataCenterId (self w))
                                   (MachineId (self w)) s, None))
                (zrange 0 n), w')).
  { destruct n as [| n]; [exists w; reflexivity |].
    assert (Ht : clock (reads w) = T)
      by (rewrite <- (Hclock 0%nat) by lia; f_equal; lia).
    cbn [NextIds]. unfold bind at 1.
    rewrite NextId_fresh by lia. rewrite Ht.
    destruct (NextIds_same_ms clock fuel n
                (mkWorld (mkSnowFlakeId (DataCenterId (self w))
                            (MachineId (self w)) 0 T) (S (reads w))))
      as [w' Hrest].
    - intros k Hk. cbn [self reads LastTimeStamp].
      rewrite <- (Hclock (S k)) by lia. f_equal; lia.
    - cbn [self Sequence]. lia.
    - cbn [self Sequence]. lia.
    - cbn [self reads LastTimeStamp DataCenterId MachineId Sequence] in Hrest.
      exists w'. unfold bind. rewrite Hrest. reflexivity. }
  destruct Hshape as [w' Hrun]. eexists. exists w'.
  split; [exact Hrun |].
  assert (Hseqs :
    map (fun r : Z * option error => ParseSequence (fst r))
        (map (fun s => (compose T (DataCenterId (self w))
                                (MachineId (self w)) s, @None error))
             (zrange 0 n))
    = zrange 0 n).
  { rewrite map_map. cbn [fst]. rewrite <- (map_id (zrange 0 n)) at 2.
    apply map_ext_in. intros s Hs. apply zrange_In in Hs.
    apply ParseSequence_compose. lia. }
  split; [| split].
  - apply Forall_forall. intros r Hr.
    apply in_map_iff in Hr as (s & <- & _). reflexivity.
  - exact Hseqs.
  - apply (NoDup_map_inv ParseSequence).
    rewrite map_map. rewrite Hseqs. apply zrange_NoDup.
Qed.

Lemma X3_millisecond_capacity_witness :
  exists rs w',
    NextIds (fun _ => T0) 0 4096 (mkWorld (mkSnowFlakeId 2 1 0 (-1)) 0)
      = Some (rs, w')
    /\ Forall (fun r => snd r = None) rs
    /\ map (fun r => ParseSequence (fst r)) rs = zrange 0 4096
    /\ NoDup (map fst rs).
Proof.
  apply (X3_millisecond_capacity (fun _ => T0) 0 4096
           (mkWorld (mkSnowFlakeId 2 1 0 (-1)) 0) T0).
  - reflexivity.
  - intros k _. reflexivity.
  - apply Nat.leb_le. vm_compute. reflexivity.
Defined.

(** ** Ids grow *)

(** X4.  When a call that returned an id is followed by one that reads the
    millisecond the first id was stamped with and returns an id whose
    sequence is not 0, the second id is the first plus one. *)
Theorem X4_same_millisecond_successor (clock : nat -> Z) (fuel : nat)
    (w : world) (id1 : Z) (w1 : world) (id2 : Z) (w2 : world) :
  NextId clock fuel w = Some ((id1, None), w1) ->
  NextId clock fuel w1 = Some ((id2, None), w2) ->
  clock (reads w1) = LastTimeStamp (self w1) ->
  ParseSequence id2 <> 0 ->
  id2 = id1 + 1.
Proof.
  intros Hfirst Hsecond Hsame Hnz.
  apply NextId_ok in Hfirst as (-> & Hd & Hm & Hs1).
  rewrite <- Hd, <- Hm.
  pose proof (next_sequence_range (Sequence (self w1))) as Hs2.
  apply NextId_inv in Hsecond.
  inversion Hsecond as [| Hgt | Heq Hnz' | Heq Hz Hle]; subst.
  - lia.
  - rewrite next_sequence_mod in *.
    assert (Hsucc : (Sequence (self w1) + 1) mod 2 ^ 12 = Sequence (self w1) + 1).
    { destruct (Z.eq_dec (Sequence (self w1)) 4095) as [E | E].
      - rewrite E in Hnz'. now vm_compute in Hnz'.
      - apply Z.mod_small. lia. }
    rewrite Hsucc, Hsame.
    rewrite (compose_seq_add _ _ _ (Sequence (self w1) + 1)) by lia.
    rewrite (compose_seq_add _ _ _ (Sequence (self w1))) by lia.
    lia.
  - rewrite ParseSequence_compose in Hnz by lia. congruence.
Qed.

Lemma X4_same_millisecond_successor_witness :
  exists id1 w1 id2 w2,
    NextId (fun _ => T0) 1 (mkWorld (mkSnowFlakeId 2 1 0 (-1)) 0)
      = Some ((id1, None), w1)
    /\ NextId (fun _ => T0) 1 w1 = Some ((id2, None), w2)
    /\ id2 = id1 + 1.
Proof.
  do 4 eexists. split; [reflexivity |]. split; [reflexivity |].
  apply (X4_same_millisecond_successor (fun _ => T0) 1
           (mkWorld (mkSnowFlakeId 2 1 0 (-1)) 0) _ _ _ _
           eq_refl eq_refl eq_refl).
  discriminate.
Defined.

(** X5.  For a generator built by [NewInstance], an id stamped with a later
    millisecond than the id of the call before is the larger of the two, as
    long as both milliseconds are inside the 41-bit window. *)
Theorem X5_later_millisecond_larger (dc m : Z) (clock : nat -> Z)
    (fuel : nat) (w : world) (id1 : Z) (w1 : world) (id2 : Z) (w2 : world) :
  reachable dc m (self w) ->
  NextId clock fuel w = Some ((id1, None), w1) ->
  NextId clock fuel w1 = Some ((id2, None), w2) ->
  LastTimeStamp (self w1) < LastTimeStamp (self w2) ->
  0 <= LastTimeStamp (self w1) - start_timestamp ->
  LastTimeStamp (self w2) - start_timestamp < 2 ^ 41 ->
  id1 < id2.
Proof.
  intros Hreach Hfirst Hsecond Hlater Hlo Hhi.
  apply reachable_invariant in Hreach as (Hdc & Hm & Hd & Hmm & _).
  apply NextId_ok in Hfirst as (-> & Hd1 & Hm1 & Hs1).
  apply NextId_ok in Hsecond as (-> & Hd2 & Hm2 & Hs2).
  rewrite Hd1, Hm1, Hd, Hmm.
  apply compose_lex_lt; try assumption; lia.
Qed.

Lemma X5_later_millisecond_larger_witness :
  exists id1 w1 id2 w2,
    NextId (fun n => T0 + Z.of_nat n) 1 (mkWorld (mkSnowFlakeId 2 1 0 (-1)) 0)
      = Some ((id1, None), w1)
    /\ NextId (fun n => T0 + Z.of_nat n) 1 w1 = Some ((id2, None), w2)
    /\ id1 < id2.
Proof.
  do 4 eexists. split; [reflexivity |]. split; [reflexivity |].
  apply (X5_later_millisecond_larger 2 1 (fun n => T0 + Z.of_nat n) 1
           (mkWorld (mkSnowFlakeId 2 1 0 (-1)) 0) _ _ _ _
           (reach_new 2 1 _ eq_refl) eq_refl eq_refl);
    vm_compute; (reflexivity || discriminate).
Defined.

(** ** When a call returns *)

(** X6.  The Go [getNextMill] returns exactly when its first reading is not
    past [LastTimeStamp] (and the loop is entered at all); what it returns
    is then the second reading, whatever that is, and the generator is as
    before. *)
Theorem X6_getNextMill_go (clock : nat -> Z) (fuel : nat) (w : world) :
  getNextMill clock fuel w =
    if (clock (reads w) <=? LastTimeStamp (self w)) && negb (Nat.eqb fuel 0)
    then Some (clock (S (reads w)), mkWorld (self w) (S (S (reads w))))
    else None.
Proof.
  destruct (Z.leb_spec (clock (reads w)) (LastTimeStamp (self w))) as [Hle | Hgt].
  - destruct fuel as [| fuel]; [reflexivity |].
    now apply getNextMill_break.
  - now apply getNextMill_spin.
Qed.

(** X7.  A call of [NextId] fails to return, however long it runs, in one
    situation only: it reads the millisecond of [LastTimeStamp], the sequence
    wraps to 0, and the next reading of the clock is already past
    [LastTimeStamp]. *)
Theorem X7_NextId_hangs_iff (clock : nat -> Z) (w : world) :
  (forall fuel, NextId clock fuel w = None) <->
  clock (reads w) = LastTimeStamp (self w)
  /\ (Sequence (self w) + 1) mod 2 ^ 12 = 0
  /\ LastTimeStamp (self w) < clock (S (reads w)).
Proof.
  rewrite <- next_sequence_mod. split.
  - intros Hhang. specialize (Hhang 1%nat).
    destruct (Z.lt_trichotomy (clock (reads w)) (LastTimeStamp (self w)))
      as [Hlt | [Heq | Hgt]].
    + now rewrite NextId_backwards in Hhang.
    + destruct (Z.eq_dec (next_sequence (Sequence (self w))) 0) as [Hz | Hnz].
      * destruct (Z.le_gt_cases (clock (S (reads w))) (LastTimeStamp (self w)))
          as [Hle | Hpast]; [| now repeat split].
        now rewrite NextId_wrap_reread in Hhang.
      * now rewrite NextId_same in Hhang.
    + now rewrite NextId_fresh in Hhang.
  - intros (Heq & Hz & Hpast) fuel. now apply NextId_wrap_spin.
Qed.

Lemma X7_NextId_hangs_iff_witness :
  NextId (fun n => T0 + Z.of_nat n) 1000
    (mkWorld (mkSnowFlakeId 2 1 4095 T0) 0) = None.
Proof.
  apply (proj2 (X7_NextId_hangs_iff (fun n => T0 + Z.of_nat n)
                  (mkWorld (mkSnowFlakeId 2 1 4095 T0) 0))).
  repeat split.
Defined.

(** A call that cannot wrap returns, and the sequence grows by one at
    most. *)
Lemma NextId_returns_below_wrap (clock : nat -> Z) (fuel : nat) (w : world) :
  0 <= Sequence (self w) -> Sequence (self w) + 1 <= 4095 ->
  exists r w',
    NextId clock fuel w = Some (r, w')
    /\ 0 <= Sequence (self w') <= Sequence (self w) + 1.
Proof.
  intros H0 H1.
  pose proof (next_sequence_succ _ H0 H1) as Hnext.
  destruct (Z.lt_trichotomy (clock (reads w)) (LastTimeStamp (self w)))
    as [Hlt | [Heq | Hgt]].
  - rewrite NextId_backwards by assumption.
    do 2 eexists. split; [reflexivity |]. cbn [self]. lia.
  - rewrite NextId_same by (rewrite ?Hnext; lia).
    do 2 eexists. split; [reflexivity |]. cbn [self Sequence]. lia.
  - rewrite NextId_fresh by assumption.
    do 2 eexists. split; [reflexivity |]. cbn [self Sequence]. lia.
Qed.

Lemma NextIds_return_below_wrap (clock : nat -> Z) (fuel : nat) (n : nat) :
  forall w : world,
    0 <= Sequence (self w) ->
    Sequence (self w) + Z.of_nat n <= 4095 ->
    exists rs w',
      NextIds clock fuel n w = Some (rs, w') /\ List.length rs = n.
Proof.
  induction n as [| n IH]; intros w H0 Hn.
  - exists [], w. split; reflexivity.
  - destruct (NextId_returns_below_wrap clock fuel w H0 ltac:(lia))
      as (r & w1 & Hrun & Hseq).
    destruct (IH w1 ltac:(lia) ltac:(lia)) as (rs & w' & Hrest & Hlen).
    exists (r :: rs), w'. cbn [NextIds]. unfold bind.
    rewrite Hrun, Hrest. split; [reflexivity |]. cbn [List.length]. now f_equal.
Qed.

(** X8.  The first 4095 calls of [NextId] on the generator that
    [NewInstance] returns (with or without an error) all return, whatever
    the clock does and without any waiting. *)
Theorem X8_first_calls_return (dataCenterId machineId : Z)
    (clock : nat -> Z) (fuel : nat) (n : nat) :
  (n <= 4095)%nat ->
  exists rs w',
    NextIds clock fuel n (mkWorld (fst (NewInstance dataCenterId machineId)) 0)
      = Some (rs, w')
    /\ List.length rs = n.
Proof.
  intros Hn. apply NextIds_return_below_wrap.
  - unfold NewInstance.
    destruct ((dataCenterId >? max_data_center_num) || (dataCenterId <? 0));
      [cbn; lia |].
    destruct ((machineId >? max_machine_num) || (machineId <? 0)); cbn; lia.
  - unfold NewInstance.
    destruct ((dataCenterId >? max_data_center_num) || (dataCenterId <? 0));
      [cbn [fst self Sequence]; lia |].
    destruct ((machineId >? max_machine_num) || (machineId <? 0));
      cbn [fst self Sequence]; lia.
Qed.

Lemma X8_first_calls_return_witness :
  exists rs w',
    NextIds (fun n => T0 - Z.of_nat n) 0 100
      (mkWorld (fst (NewInstance 2 1)) 0) = Some (rs, w')
    /\ List.length rs = 100%nat.
Proof.
  apply (X8_first_calls_return 2 1 (fun n => T0 - Z.of_nat n) 0 100).
  apply Nat.leb_le. reflexivity.
Defined.

(** ** A run against a clock that never goes back *)

(** The ids that a list of results carries. *)
Definition ids_of (rs : list (Z * option error)) : list Z := map fst rs.

Section Forward.

Variable clock : nat -> Z.
Hypothesis clock_mono : forall i j, (i <= j)%nat -> clock i <= clock j.
Hypothesis clock_window :
  forall i, 0 <= clock i - start_timestamp < 2 ^ 41.

Variables dc m : Z.
Hypothesis Hdc : 0 <= dc < 2 ^ 4.
Hypothesis Hm : 0 <= m < 2 ^ 6.

(** An id composed after the state (last, seq): from a later millisecond,
    or from the same one with a larger sequence number. *)
Definition after (last seq id : Z) : Prop :=
  exists ts s,
    id = compose ts dc m s
    /\ 0 <= ts - start_timestamp < 2 ^ 41 /\ 0 <= s < 2 ^ 12
    /\ (last < ts \/ (ts = last /\ seq < s)).

Lemma after_trans (last seq ts s id : Z) :
  last < ts \/ (ts = last /\ seq < s) ->
  after ts s id -> after last seq id.
Proof.
  intros Hstep (ts' & s' & Hid & Hwin & Hs & Hlex).
  exists ts', s'. repeat split; try assumption; lia.
Qed.

Lemma after_lt (ts s id : Z) :
  0 <= ts - start_timestamp < 2 ^ 41 -> 0 <= s < 2 ^ 12 ->
  after ts s id -> compose ts dc m s < id.
Proof.
  intros Hwin Hs (ts' & s' & -> & Hwin' & Hs' & Hlex).
  apply compose_lex_lt; try assumption. lia.
Qed.

Lemma NextIds_forward (fuel : nat) (n : nat) :
  forall w : world,
    DataCenterId (self w) = dc -> MachineId (self w) = m ->
    0 <= Sequence (self w) ->
    Sequence (self w) + Z.of_nat n <= 4095 ->
    LastTimeStamp (self w) <= clock (reads w) ->
    exists rs w',
      NextIds clock fuel n w = Some (rs, w')
      /\ List.length rs = n
      /\ Forall (fun r => snd r = None) rs
      /\ Forall (after (LastTimeStamp (self w)) (Sequence (self w))) (ids_of rs)
      /\ StronglySorted Z.lt (ids_of rs).
Proof.
  induction n as [| n IH]; intros w Hd Hmm H0 Hn Hlast.
  - exists [], w. repeat split; constructor.
  - pose proof (clock_window (reads w)) as Hwin.
    pose proof (clock_mono (reads w) (S (reads w)) ltac:(lia)) as Hnext.
    assert (Hstep : exists s,
      NextId clock fuel w
      = Some ((compose (clock (reads w)) dc m s, None),
              mkWorld (mkSnowFlakeId dc m s (clock (reads w))) (S (reads w)))
      /\ 0 <= s <= Sequence (self w) + 1
      /\ (LastTimeStamp (self w) < clock (reads w)
          \/ (clock (reads w) = LastTimeStamp (self w)
              /\ Sequence (self w) < s))).
    { destruct (Z.eq_dec (clock (reads w)) (LastTimeStamp (self w)))
        as [Heq | Hne].
      2: { exists 0. rewrite NextId_fresh, Hd, Hmm by lia.
           repeat split; lia. }
      exists (Sequence (self w) + 1).
      pose proof (next_sequence_succ (Sequence (self w)) H0 ltac:(lia)) as E.
      rewrite NextId_same, E, Hd, Hmm by (rewrite ?E; lia).
      repeat split; lia. }
    destruct Hstep as (s & Hrun & Hs & Hlex).
    destruct (IH (mkWorld (mkSnowFlakeId dc m s (clock (reads w))) (S (reads w))))
      as (rs & w' & Hrest & Hlen & Hok & Hafter & Hsorted);
      cbn [self reads DataCenterId MachineId Sequence LastTimeStamp] in *;
      try reflexivity; try lia.
    exists ((compose (clock (reads w)) dc m s, None) :: rs), w'.
    cbn [NextIds]. unfold bind. rewrite Hrun, Hrest.
    split; [reflexivity |].
    split; [cbn [List.length]; now f_equal |].
    split; [now constructor |].
    unfold ids_of in *. cbn [map fst].
    split.
    + constructor.
      * exists (clock (reads w)), s. repeat split; try assumption; lia.
      * eapply Forall_impl; [| exact Hafter].
        intros id Hid. now apply (after_trans _ _ (clock (reads w)) s).
    + constructor; [exact Hsorted |].
      eapply Forall_impl; [| exact Hafter].
      intros id Hid. apply after_lt; [assumption | lia | exact Hid].
Qed.

End Forward.

(** X9.  Against a clock that never goes back and stays inside the 41-bit
    window, the first [n <= 4095] calls on a new generator all return an id,
    and each id is larger than the one before: the ids are pairwise
    distinct and ordered by time. *)
Theorem X9_forward_clock_increasing (dc m : Z) (sf : snowFlakeId)
    (clock : nat -> Z) (fuel : nat) (n : nat) :
  NewInstance dc m = (sf, None) ->
  (forall i j, (i <= j)%nat -> clock i <= clock j) ->
  (forall i, 0 <= clock i - start_timestamp < 2 ^ 41) ->
  (n <= 4095)%nat ->
  exists rs w',
    NextIds clock fuel n (mkWorld sf 0) = Some (rs, w')
    /\ List.length rs = n
    /\ Forall (fun r => snd r = None) rs
    /\ StronglySorted Z.lt (map fst rs).
Proof.
  intros Hnew Hmono Hwin Hn.
  apply NewInstance_ok in Hnew as (Hdc & Hm & ->).
  destruct (NextIds_forward clock Hmono Hwin dc m Hdc Hm fuel n
              (mkWorld (mkSnowFlakeId dc m 0 (-1)) 0))
    as (rs & w' & Hrun & Hlen & Hok & _ & Hsorted);
    cbn [self reads DataCenterId MachineId Sequence LastTimeStamp];
    try reflexivity; try lia.
  - pose proof (Hwin 0%nat). unfold start_timestamp in *. lia.
  - exists rs, w'. now repeat split.
Qed.

Lemma X9_forward_clock_increasing_witness :
  exists rs w',
    NextIds (fun i => T0 + Z.of_nat (Nat.min i 50)) 0 100
      (mkWorld (mkSnowFlakeId 2 1 0 (-1)) 0) = Some (rs, w')
    /\ List.length rs = 100%nat
    /\ Forall (fun r => snd r = None) rs
    /\ StronglySorted Z.lt (map fst rs).
Proof.
  apply (X9_forward_clock_increasing 2 1 (mkSnowFlakeId 2 1 0 (-1))
           (fun i => T0 + Z.of_nat (Nat.min i 50)) 0 100).
  - reflexivity.
  - intros i j Hij. lia.
  - intros i. unfold T0, start_timestamp. lia.
  - apply Nat.leb_le. reflexivity.
Defined.



(** * Properties of the Java class *)

Module SnowflakeIdFacts.
Import SnowflakeId.

Example MAX_SEQUENCE_val : MAX_SEQUENCE = 4095. Proof. reflexivity. Qed.
Example MAX_MACHINE_NUM_val : MAX_MACHINE_NUM = 31. Proof. reflexivity. Qed.
Example MAX_DATA_CENTER_NUM_val : MAX_DATA_CENTER_NUM = 31.
Proof. reflexivity. Qed.
Example MAX_TIMESTAMP_NUM_val : MAX_TIMESTAMP_NUM = 2 ^ 41 - 1.
Proof. reflexivity. Qed.

Lemma parseDataCenter_field (id : Z) : parseDataCenter id = field id 17 5.
Proof. exact (mask_shift id 17 5 ltac:(lia)). Qed.

Lemma parseMachineId_field (id : Z) : parseMachineId id = field id 12 5.
Proof. exact (mask_shift id 12 5 ltac:(lia)). Qed.

Lemma parseDateTime_field (id : Z) : parseDateTime id = field id 22 41.
Proof. exact (mask_shift id 22 41 ltac:(lia)). Qed.

Lemma parseSequence_field (id : Z) : parseSequence id = field id 0 12.
Proof. unfold field. now rewrite Z.shiftr_0_r. Qed.

(** The word that [nextId] composes. *)
Definition jcompose (ts dc m seq : Z) : Z :=
  Z.lor (Z.lor (Z.lor
    (shl (Int64.sub ts START_TIMESTAMP) TIMESTAMP_LEFT)
    (shl dc DATA_CENTER_LEFT))
    (shl m MACHINE_LEFT))
    seq.

Lemma jcompose_testbit (ts dc m seq j : Z) :
  j < 64 ->
  Z.testbit (jcompose ts dc m seq) j =
    Z.testbit (ts - START_TIMESTAMP) (j - 22) || Z.testbit dc (j - 17)
    || Z.testbit m (j - 12) || Z.testbit seq j.
Proof.
  intros Hj. unfold jcompose, shl. rewrite !Z.lor_spec.
  change (Z.land TIMESTAMP_LEFT 63) with 22.
  change (Z.land DATA_CENTER_LEFT 63) with 17.
  change (Z.land MACHINE_LEFT 63) with 12.
  rewrite !Int64Facts.shl_testbit, Int64Facts.sub_testbit by lia.
  reflexivity.
Qed.

Section Decode.

Variables ts dc m seq : Z.
Hypothesis Hseq : 0 <= seq < 2 ^ 12.

Lemma parseSequence_jcompose : parseSequence (jcompose ts dc m seq) = seq.
Proof.
  rewrite parseSequence_field. by_bits i Hi.
  destruct (Z.ltb_spec i 12) as [Hlt | Hge].
  - rewrite jcompose_testbit by lia. kill_bits. f_equal; lia.
  - kill_bits. reflexivity.
Qed.

Hypothesis Hm : 0 <= m < 2 ^ 5.

Lemma parseMachineId_jcompose : parseMachineId (jcompose ts dc m seq) = m.
Proof.
  rewrite parseMachineId_field. by_bits i Hi.
  destruct (Z.ltb_spec i 5) as [Hlt | Hge].
  - rewrite jcompose_testbit by lia. kill_bits. f_equal; lia.
  - kill_bits. reflexivity.
Qed.

Hypothesis Hdc : 0 <= dc < 2 ^ 5.

Lemma parseDataCenter_jcompose : parseDataCenter (jcompose ts dc m seq) = dc.
Proof.
  rewrite parseDataCenter_field. by_bits i Hi.
  destruct (Z.ltb_spec i 5) as [Hlt | Hge].
  - rewrite jcompose_testbit by lia. kill_bits. f_equal; lia.
  - kill_bits. reflexivity.
Qed.

Lemma parseDateTime_jcompose :
  parseDateTime (jcompose ts dc m seq) = (ts - START_TIMESTAMP) mod 2 ^ 41.
Proof.
  rewrite parseDateTime_field. by_bits i Hi.
  destruct (Z.ltb_spec i 41) as [Hlt | Hge].
  - rewrite jcompose_testbit, Z.mod_pow2_bits_low by lia. kill_bits.
    f_equal; lia.
  - rewrite Z.mod_pow2_bits_high by lia. kill_bits. reflexivity.
Qed.

Hypothesis Hts : 0 <= ts - START_TIMESTAMP < 2 ^ 41.

Lemma jcompose_sum :
  jcompose ts dc m seq =
    (ts - START_TIMESTAMP) * 2 ^ 22 + dc * 2 ^ 17 + m * 2 ^ 12 + seq.
Proof.
  unfold jcompose, shl, Int64.shl, Int64.sub.
  change (Z.land TIMESTAMP_LEFT 63) with 22.
  change (Z.land DATA_CENTER_LEFT 63) with 17.
  change (Z.land MACHINE_LEFT 63) with 12.
  rewrite (Int64Facts.wrap64_small (ts - START_TIMESTAMP))
    by (unfold Int64.in_range, Int64.min_int, Int64.max_int; lia).
  rewrite !Z.shiftl_mul_pow2 by lia.
  rewrite !Int64Facts.wrap64_small
    by (unfold Int64.in_range, Int64.min_int, Int64.max_int; lia).
  rewrite (lor_add_disjoint _ (dc * 2 ^ 17) 22) by lia.
  replace ((ts - START_TIMESTAMP) * 2 ^ 22 + dc * 2 ^ 17)
    with (((ts - START_TIMESTAMP) * 2 ^ 5 + dc) * 2 ^ 17) by lia.
  rewrite (lor_add_disjoint _ (m * 2 ^ 12) 17) by lia.
  replace (((ts - START_TIMESTAMP) * 2 ^ 5 + dc) * 2 ^ 17 + m * 2 ^ 12)
    with (((ts - START_TIMESTAMP) * 2 ^ 10 + dc * 2 ^ 5 + m) * 2 ^ 12) by lia.
  rewrite (lor_add_disjoint _ seq 12) by lia.
  lia.
Qed.

End Decode.

Lemma jcompose_lex_lt (ts1 s1 ts2 s2 dc m : Z) :
  0 <= ts1 - START_TIMESTAMP < 2 ^ 41 ->
  0 <= ts2 - START_TIMESTAMP < 2 ^ 41 ->
  0 <= dc < 2 ^ 5 -> 0 <= m < 2 ^ 5 ->
  0 <= s1 < 2 ^ 12 -> 0 <= s2 < 2 ^ 12 ->
  ts1 < ts2 \/ (ts2 = ts1 /\ s1 < s2) ->
  jcompose ts1 dc m s1 < jcompose ts2 dc m s2.
Proof.
  intros H1 H2 Hdc Hm Hs1 Hs2 Hlex.
  rewrite !jcompose_sum by assumption. lia.
Qed.

End SnowflakeIdFacts.

(** ** [getNextMill] and [nextId] of the Java class *)

Module SnowflakeIdRun.
Import SnowflakeId SnowflakeIdFacts.

Definition clock_moved_backwards : exception :=
  RuntimeException "Clock moved backwards.  Refusing to generate id".

(** The line that [nextId] prints for the id it returns. *)
Definition printed (ts dc m seq : Z) : line :=
  printf
    ("nextId=%d;it's timeStamp=%d,datacenterId=%d,machineId=%d,sequence=%d"
     ++ newline)
    [jcompose ts dc m seq; Int64.sub ts START_TIMESTAMP; dc; m; seq].

Section Runs.

Variable clock : nat -> Z.

(** When the Java loop returns, what it returns is past [lastTimeStamp]; it
    is the value it was entered with or a reading of the clock. *)
Lemma getNextMill_loop_sound (fuel : nat) :
  forall (mill : Z) (sf : snowFlakeId) (n : nat) (v : Z) (w' : world),
    Java.getNextMill_loop clock fuel mill (mkWorld sf n) = Some (v, w') ->
    LastTimeStamp sf < v /\ self w' = sf /\ (v = mill \/ exists j, v = clock j).
Proof.
  induction fuel as [| fuel IH]; intros mill sf n v w' Hrun; [discriminate |].
  rewrite Java_getNextMill_loop_eq in Hrun.
  destruct (Z.leb_spec mill (LastTimeStamp sf)) as [Hle | Hgt].
  - apply IH in Hrun as (Hv & Hself & [-> | Hj]).
    + repeat split; try assumption. right. now exists n.
    + now repeat split; try assumption; right.
  - injection Hrun as <- <-. now repeat split; try assumption; left.
Qed.

Lemma getNextMill_sound (fuel : nat) (w : world) (v : Z) (w' : world) :
  Java.getNextMill clock fuel w = Some (v, w') ->
  LastTimeStamp (self w) < v /\ self w' = self w /\ exists j, v = clock j.
Proof.
  destruct w as [sf n]. unfold Java.getNextMill, bind, getNewTimeStamp.
  cbn [self reads]. intros Hrun.
  apply getNextMill_loop_sound in Hrun as (Hv & Hself & [-> | Hj]).
  - repeat split; try assumption. now exists n.
  - now repeat split.
Qed.

(** The loop, entered with a value that is not past [lastTimeStamp], returns
    the first reading that is. *)
Lemma getNextMill_loop_first (k : nat) :
  forall (fuel : nat) (mill : Z) (sf : snowFlakeId) (n : nat),
    mill <= LastTimeStamp sf ->
    (forall j, (j < k)%nat -> clock (n + j)%nat <= LastTimeStamp sf) ->
    LastTimeStamp sf < clock (n + k)%nat ->
    (k + 2 <= fuel)%nat ->
    Java.getNextMill_loop clock fuel mill (mkWorld sf n)
    = Some (clock (n + k)%nat, mkWorld sf (n + k + 1)).
Proof.
  induction k as [| k IH]; intros fuel mill sf n Hmill Hbefore Hat Hfuel.
  - destruct fuel as [| [| fuel]]; try lia.
    rewrite Java_getNextMill_loop_eq.
    destruct (Z.leb_spec mill (LastTimeStamp sf)); [| lia].
    rewrite Java_getNextMill_loop_eq.
    rewrite Nat.add_0_r in *.
    destruct (Z.leb_spec (clock n) (LastTimeStamp sf)); [lia |].
    now replace (n + 1)%nat with (S n) by lia.
  - destruct fuel as [| fuel]; try lia.
    rewrite Java_getNextMill_loop_eq.
    destruct (Z.leb_spec mill (LastTimeStamp sf)); [| lia].
    rewrite (IH fuel (clock n) sf (S n)).
    + now replace (S n + k)%nat with (n + S k)%nat by lia;
        replace (n + S k + 1)%nat with (S n + k + 1)%nat by lia.
    + rewrite <- (Nat.add_0_r n). apply Hbefore. lia.
    + intros j Hj. replace (S n + j)%nat with (n + S j)%nat by lia.
      apply Hbefore. lia.
    + now replace (S n + k)%nat with (n + S k)%nat by lia.
    + lia.
Qed.

(** X12.  The Java [getNextMill] returns the first reading of the clock that
    is past [lastTimeStamp], having taken every reading up to it and left the
    generator as it was. *)
Theorem X12_getNextMill_java (fuel : nat) (w : world) (k : nat) :
  (forall j, (j < k)%nat ->
             clock (reads w + j)%nat <= LastTimeStamp (self w)) ->
  LastTimeStamp (self w) < clock (reads w + k)%nat ->
  (k + 1 <= fuel)%nat ->
  Java.getNextMill clock fuel w
  = Some (clock (reads w + k)%nat, mkWorld (self w) (reads w + k + 1)).
Proof.
  destruct w as [sf n]. cbn [self reads]. intros Hbefore Hat Hfuel.
  unfold Java.getNextMill, bind, getNewTimeStamp. cbn [self reads].
  destruct k as [| k].
  - destruct fuel as [| fuel]; [lia |].
    rewrite Java_getNextMill_loop_eq. rewrite Nat.add_0_r in *.
    destruct (Z.leb_spec (clock n) (LastTimeStamp sf)); [lia |].
    now replace (n + 1)%nat with (S n) by lia.
  - rewrite (getNextMill_loop_first k fuel (clock n) sf (S n)).
    + now replace (S n + k)%nat with (n + S k)%nat by lia;
        replace (n + S k + 1)%nat with (S n + k + 1)%nat by lia.
    + rewrite <- (Nat.add_0_r n). apply Hbefore. lia.
    + intros j Hj. replace (S n + j)%nat with (n + S j)%nat by lia.
      apply Hbefore. lia.
    + now replace (S n + k)%nat with (n + S k)%nat by lia.
    + lia.
Qed.

Ltac jrun := unfold nextId, bind, getNewTimeStamp, this, ret,
               set_Sequence, set_LastTimeStamp;
             cbn [self reads fst snd
                  DataCenterId MachineId Sequence LastTimeStamp].

(** What a call of [nextId] that returns has done. *)
Lemma nextId_inv (fuel : nat) (w : world) r (w' : world) :
  nextId clock fuel w = Some (r, w') ->
  (clock (reads w) < LastTimeStamp (self w)
   /\ r = (inl clock_moved_backwards, [])
   /\ w' = mkWorld (self w) (S (reads w)))
  \/ exists ts seq n',
       r = (inr (jcompose ts (DataCenterId (self w)) (MachineId (self w)) seq),
            [printed ts (DataCenterId (self w)) (MachineId (self w)) seq])
       /\ w' = mkWorld (mkSnowFlakeId (DataCenterId (self w))
                          (MachineId (self w)) seq ts) n'
       /\ 0 <= seq < 2 ^ 12
       /\ (exists j, ts = clock j)
       /\ ((LastTimeStamp (self w) < ts /\ seq = 0)
           \/ (ts = LastTimeStamp (self w)
               /\ seq = next_sequence (Sequence (self w)) /\ seq <> 0)).
Proof.
  jrun.
  destruct (Z.ltb_spec (clock (reads w)) (LastTimeStamp (self w))) as [Hlt | Hge].
  { intros [= <- <-]. left. now repeat split. }
  destruct (Z.eqb_spec (clock (reads w)) (LastTimeStamp (self w))) as [Heq | Hne].
  - change (Z.land (Int64.add (Sequence (self w)) 1) MAX_SEQUENCE)
      with (next_sequence (Sequence (self w))).
    pose proof (next_sequence_range (Sequence (self w))) as Hrange.
    destruct (Z.eqb_spec (next_sequence (Sequence (self w))) 0) as [Hz | Hnz].
    + destruct (Java.getNextMill clock fuel _) as [[v w2] |] eqn:Hmill;
        [| discriminate].
      apply getNextMill_sound in Hmill as (Hv & Hself & Hj).
      cbn [self LastTimeStamp] in Hv.
      rewrite Hself. cbn [DataCenterId MachineId Sequence].
      intros [= <- <-]. right. exists v, 0, (reads w2).
      rewrite Hz.
      split; [reflexivity |]. split; [reflexivity |]. split; [lia |].
      split; [exact Hj |]. left. split; [exact Hv | reflexivity].
    + intros [= <- <-]. right.
      exists (clock (reads w)), (next_sequence (Sequence (self w))), (S (reads w)).
      split; [reflexivity |]. split; [reflexivity |]. split; [lia |].
      split; [now exists (reads w) |]. right. now repeat split.
  - intros [= <- <-]. right. exists (clock (reads w)), 0, (S (reads w)).
    split; [reflexivity |]. split; [reflexivity |]. split; [lia |].
    split; [now exists (reads w) |]. left. split; [lia | reflexivity].
Qed.

Lemma nextId_backwards (fuel : nat) (w : world) :
  clock (reads w) < LastTimeStamp (self w) ->
  nextId clock fuel w
  = Some ((inl clock_moved_backwards, []), mkWorld (self w) (S (reads w))).
Proof.
  intros Hlt. jrun.
  destruct (Z.ltb_spec (clock (reads w)) (LastTimeStamp (self w)));
    [reflexivity | lia].
Qed.

(** X16.  A call of the Java [nextId] returns whenever some later reading
    of the clock is past [lastTimeStamp]: the wait of a wrapped sequence ends
    with the millisecond. *)
Theorem X16_nextId_returns (w : world) (k : nat) :
  LastTimeStamp (self w) < clock (S (reads w) + k)%nat ->
  exists fuel r w', nextId clock fuel w = Some (r, w').
Proof.
  intros Hk.
  destruct (Java_getNextMill_terminates clock
              (mkWorld (mkSnowFlakeId (DataCenterId (self w)) (MachineId (self w))
                          0 (LastTimeStamp (self w)))
                       (S (reads w))) k Hk)
    as (fuel & v & w2 & Hmill & _).
  exists fuel. jrun.
  destruct (Z.ltb_spec (clock (reads w)) (LastTimeStamp (self w)));
    [now do 2 eexists |].
  destruct (Z.eqb_spec (clock (reads w)) (LastTimeStamp (self w)));
    [| now do 2 eexists].
  change (Z.land (Int64.add (Sequence (self w)) 1) MAX_SEQUENCE)
    with (next_sequence (Sequence (self w))).
  destruct (Z.eqb_spec (next_sequence (Sequence (self w))) 0) as [Hz | Hnz];
    [| now do 2 eexists].
  rewrite Hz. cbn [self reads]. rewrite Hmill. now do 2 eexists.
Qed.

End Runs.

(** The states of a generator made by the constructor and driven by calls of
    [nextId]. *)
Inductive jreachable (dc m : Z) : snowFlakeId -> Prop :=
| jreach_new (sf : snowFlakeId) :
    new dc m = inr sf -> jreachable dc m sf
| jreach_next (clock : nat -> Z) (fuel : nat) (w : world) r (w' : world) :
    jreachable dc m (self w) ->
    nextId clock fuel w = Some (r, w') ->
    jreachable dc m (self w').

Lemma new_ok (dc m : Z) (sf : snowFlakeId) :
  new dc m = inr sf ->
  0 <= dc < 2 ^ 5 /\ 0 <= m < 2 ^ 5 /\ sf = mkSnowFlakeId dc m 0 (-1).
Proof.
  unfold new.
  change MAX_DATA_CENTER_NUM with 31. change MAX_MACHINE_NUM with 31.
  destruct (Z.gtb_spec dc 31); destruct (Z.ltb_spec dc 0);
    cbn [orb]; try discriminate.
  destruct (Z.gtb_spec m 31); destruct (Z.ltb_spec m 0);
    cbn [orb]; try discriminate.
  intros [= <-]. repeat split; lia.
Qed.

Lemma jreachable_invariant (dc m : Z) (sf : snowFlakeId) :
  jreachable dc m sf ->
  0 <= dc < 2 ^ 5 /\ 0 <= m < 2 ^ 5
  /\ DataCenterId sf = dc /\ MachineId sf = m
  /\ 0 <= Sequence sf < 2 ^ 12.
Proof.
  induction 1 as [sf Hnew | clock fuel w r w' _ IH Hrun].
  - apply new_ok in Hnew as (Hdc & Hm & ->).
    cbn [DataCenterId MachineId Sequence]. repeat split; lia.
  - destruct IH as (Hdc & Hm & Hd & Hmm & Hs).
    apply nextId_inv in Hrun
      as [(_ & _ & ->) | (ts & seq & n' & _ & -> & Hseq & _)];
      cbn [self DataCenterId MachineId Sequence]; repeat split; lia.
Qed.

(** X11.  The constructor throws [IllegalArgumentException] exactly when
    [dataCenterId] or [machineId] is negative or above [2 ^ 5 - 1]; otherwise
    the object has the given identity, [sequence = 0] and
    [lastTimeStamp = -1]. *)
Theorem X11_constructor (dataCenterId machineId : Z) :
  ((exists msg, new dataCenterId machineId = inl (IllegalArgumentException msg))
   <-> dataCenterId < 0 \/ dataCenterId > 2 ^ 5 - 1
       \/ machineId < 0 \/ machineId > 2 ^ 5 - 1)
  /\ (0 <= dataCenterId <= 2 ^ 5 - 1 -> 0 <= machineId <= 2 ^ 5 - 1 ->
      new dataCenterId machineId
      = inr (mkSnowFlakeId dataCenterId machineId 0 (-1))).
Proof.
  unfold new.
  change MAX_DATA_CENTER_NUM with 31. change MAX_MACHINE_NUM with 31.
  destruct (Z.gtb_spec dataCenterId 31); destruct (Z.ltb_spec dataCenterId 0);
    cbn [orb];
    try (split; [split; [lia | intros _; eexists; reflexivity] | lia]).
  destruct (Z.gtb_spec machineId 31); destruct (Z.ltb_spec machineId 0);
    cbn [orb];
    try (split; [split; [lia | intros _; eexists; reflexivity] | lia]).
  split; [split; [intros [msg Hmsg]; discriminate | lia] | reflexivity].
Qed.

Lemma X11_constructor_witness :
  new 31 31 = inr (mkSnowFlakeId 31 31 0 (-1))
  /\ (exists msg, new 32 0 = inl (IllegalArgumentException msg))
  /\ (exists msg, new 0 (-1) = inl (IllegalArgumentException msg)).
Proof.
  split; [| split].
  - apply (proj2 (X11_constructor 31 31)); lia.
  - apply (proj1 (X11_constructor 32 0)). lia.
  - apply (proj1 (X11_constructor 0 (-1))). lia.
Defined.

Lemma X12_getNextMill_java_witness :
  Java.getNextMill (fun n => if (n <? 3)%nat then T0 else T0 + 1) 4
    (mkWorld (mkSnowFlakeId 2 3 0 T0) 0)
  = Some (T0 + 1, mkWorld (mkSnowFlakeId 2 3 0 T0) 4).
Proof.
  apply (X12_getNextMill_java (fun n => if (n <? 3)%nat then T0 else T0 + 1) 4
           (mkWorld (mkSnowFlakeId 2 3 0 T0) 0) 3).
  - intros j Hj. cbn [reads self LastTimeStamp Nat.add].
    destruct (Nat.ltb_spec j 3); lia.
  - reflexivity.
  - apply Nat.leb_le. reflexivity.
Defined.

Lemma X16_nextId_returns_witness :
  exists fuel r w',
    nextId (fun n => if (n <? 3)%nat then T0 else T0 + 1) fuel
      (mkWorld (mkSnowFlakeId 2 3 4095 T0) 0) = Some (r, w').
Proof.
  apply (X16_nextId_returns (fun n => if (n <? 3)%nat then T0 else T0 + 1)
           (mkWorld (mkSnowFlakeId 2 3 4095 T0) 0) 2).
  reflexivity.
Defined.

(** X13.  For an object built by the constructor with [(dc, m)] and an id
    that [nextId] stamps inside the 41-bit window, the four decoders return
    [dc], [m], the sequence and the millisecond offset the id was composed
    from, and the one line printed by the call shows the id followed by
    exactly these decoded fields. *)
Theorem X13_nextId_round_trip (dc m : Z) (clock : nat -> Z) (fuel : nat)
    (w : world) (id : Z) (out : list line) (w' : world) :
  jreachable dc m (self w) ->
  nextId clock fuel w = Some ((inr id, out), w') ->
  0 <= LastTimeStamp (self w') - START_TIMESTAMP < 2 ^ 41 ->
  parseDataCenter id = dc
  /\ parseMachineId id = m
  /\ parseSequence id = Sequence (self w')
  /\ parseDateTime id = LastTimeStamp (self w') - START_TIMESTAMP
  /\ out = [printf
              ("nextId=%d;it's timeStamp=%d,datacenterId=%d,machineId=%d,sequence=%d"
               ++ newline)
              [id; parseDateTime id; parseDataCenter id; parseMachineId id;
               parseSequence id]].
Proof.
  intros Hreach Hrun Hwin.
  apply jreachable_invariant in Hreach as (Hdc & Hm & Hd & Hmm & _).
  apply nextId_inv in Hrun
    as [(_ & [=] & _) | (ts & seq & n' & [= -> ->] & -> & Hseq & _)].
  cbn [self LastTimeStamp Sequence] in *. rewrite Hd, Hmm.
  rewrite parseDataCenter_jcompose, parseMachineId_jcompose,
    parseSequence_jcompose, parseDateTime_jcompose by assumption.
  rewrite Z.mod_small by assumption.
  repeat split. unfold printed.
  unfold Int64.sub. rewrite Int64Facts.wrap64_small; [reflexivity |].
  unfold Int64.in_range, Int64.min_int, Int64.max_int. lia.
Qed.

Lemma X13_nextId_round_trip_witness :
  exists id out w',
    nextId (fun _ => T0) 1 (mkWorld (mkSnowFlakeId 2 3 0 (-1)) 0)
      = Some ((inr id, out), w')
    /\ parseDataCenter id = 2 /\ parseMachineId id = 3
    /\ parseSequence id = 0 /\ parseDateTime id = T0 - START_TIMESTAMP.
Proof.
  do 3 eexists. split; [vm_compute; reflexivity |].
  assert (Hwin : 0 <= T0 - START_TIMESTAMP < 2 ^ 41)
    by (vm_compute; split; [discriminate | reflexivity]).
  destruct (X13_nextId_round_trip 2 3 (fun _ => T0) 1
              (mkWorld (mkSnowFlakeId 2 3 0 (-1)) 0) _ _ _
              (jreach_new 2 3 _ eq_refl) eq_refl Hwin)
    as (Hd & Hm & Hs & Ht & _).
  split; [exact Hd |]. split; [exact Hm |]. split; [exact Hs | exact Ht].
Defined.

(** X14.  [nextId] throws (the [RuntimeException] "Clock moved backwards")
    exactly when the reading it starts with is below [lastTimeStamp]; it has
    then printed nothing and changed no field. *)
Theorem X14_nextId_throws_iff (clock : nat -> Z) (fuel : nat) (w : world) :
  (clock (reads w) < LastTimeStamp (self w) ->
   nextId clock fuel w
   = Some ((inl clock_moved_backwards, []), mkWorld (self w) (S (reads w))))
  /\ (forall e out w',
        nextId clock fuel w = Some ((inl e, out), w') ->
        clock (reads w) < LastTimeStamp (self w)
        /\ e = clock_moved_backwards /\ out = [] /\ self w' = self w).
Proof.
  split; [apply nextId_backwards |].
  intros e out w' Hrun.
  apply nextId_inv in Hrun
    as [(Hlt & [= -> ->] & ->) | (ts & seq & n' & [=] & _)].
  now repeat split.
Qed.

Lemma X14_nextId_throws_iff_witness :
  nextId (fun _ => T0 - 1) 1 (mkWorld (mkSnowFlakeId 2 3 5 T0) 0)
  = Some ((inl clock_moved_backwards, []),
          mkWorld (mkSnowFlakeId 2 3 5 T0) 1).
Proof.
  apply (proj1 (X14_nextId_throws_iff (fun _ => T0 - 1) 1
                  (mkWorld (mkSnowFlakeId 2 3 5 T0) 0))).
  reflexivity.
Defined.

(** X17.  On every word the Java decoders return a value within their
    field: 5 bits of data center, 5 of machine, 12 of sequence, 41 of
    timestamp. *)
Theorem X17_decode_bounds (id : Z) :
  0 <= parseDataCenter id <= 2 ^ 5 - 1
  /\ 0 <= parseMachineId id <= 2 ^ 5 - 1
  /\ 0 <= parseSequence id <= 2 ^ 12 - 1
  /\ 0 <= parseDateTime id <= 2 ^ 41 - 1.
Proof.
  rewrite parseDataCenter_field, parseMachineId_field, parseSequence_field,
    parseDateTime_field.
  repeat split; apply field_range; lia.
Qed.

(** ** Java ids grow with every call *)

Section Growth.

Variables dc m : Z.
Hypothesis Hdc : 0 <= dc < 2 ^ 5.
Hypothesis Hm : 0 <= m < 2 ^ 5.

(** An id composed after the state (last, seq). *)
Definition jafter (last seq id : Z) : Prop :=
  exists ts s,
    id = jcompose ts dc m s
    /\ 0 <= ts - START_TIMESTAMP < 2 ^ 41 /\ 0 <= s < 2 ^ 12
    /\ (last < ts \/ (ts = last /\ seq < s)).

Lemma jafter_trans (last seq ts s id : Z) :
  last < ts \/ (ts = last /\ seq < s) ->
  jafter ts s id -> jafter last seq id.
Proof.
  intros Hstep (ts' & s' & Hid & Hwin & Hs & Hlex).
  exists ts', s'. repeat split; try assumption; lia.
Qed.

Lemma jafter_lt (ts s id : Z) :
  0 <= ts - START_TIMESTAMP < 2 ^ 41 -> 0 <= s < 2 ^ 12 ->
  jafter ts s id -> jcompose ts dc m s < id.
Proof.
  intros Hwin Hs (ts' & s' & -> & Hwin' & Hs' & Hlex).
  apply jcompose_lex_lt; assumption.
Qed.

(** A call that returns an id has moved (lastTimeStamp, sequence) up in the
    lexicographic order, and the id is composed from the new pair. *)
Lemma nextId_step (clock : nat -> Z) (fuel : nat) (w : world)
    (id : Z) (out : list line) (w' : world) :
  DataCenterId (self w) = dc -> MachineId (self w) = m ->
  0 <= Sequence (self w) < 2 ^ 12 ->
  nextId clock fuel w = Some ((inr id, out), w') ->
  id = jcompose (LastTimeStamp (self w')) dc m (Sequence (self w'))
  /\ DataCenterId (self w') = dc /\ MachineId (self w') = m
  /\ 0 <= Sequence (self w') < 2 ^ 12
  /\ (exists j, LastTimeStamp (self w') = clock j)
  /\ (LastTimeStamp (self w) < LastTimeStamp (self w')
      \/ (LastTimeStamp (self w') = LastTimeStamp (self w)
          /\ Sequence (self w) < Sequence (self w'))).
Proof.
  intros Hd Hmm Hs Hrun.
  apply nextId_inv in Hrun
    as [(_ & [=] & _) | (ts & seq & n' & [= -> ->] & -> & Hseq & Hj & Hlex)].
  cbn [self LastTimeStamp Sequence DataCenterId MachineId].
  rewrite Hd, Hmm. repeat split; try assumption; try lia.
  destruct Hlex as [[Hlt _] | (-> & -> & Hnz)]; [now left | right].
  split; [reflexivity |].
  rewrite next_sequence_mod in *.
  destruct (Z.eq_dec (Sequence (self w)) 4095) as [E | E].
  - rewrite E in Hnz. now vm_compute in Hnz.
  - rewrite Z.mod_small by lia. lia.
Qed.

End Growth.

(** X15.  Of two successive calls of [nextId] that return an id, on an object
    built by the constructor, the second returns the larger id, as long as
    both are stamped inside the 41-bit window; a wrapped sequence is no
    exception. *)
Theorem X15_nextId_increasing (dc m : Z) (clock : nat -> Z) (fuel : nat)
    (w : world) (id1 : Z) (out1 : list line) (w1 : world)
    (id2 : Z) (out2 : list line) (w2 : world) :
  jreachable dc m (self w) ->
  nextId clock fuel w = Some ((inr id1, out1), w1) ->
  nextId clock fuel w1 = Some ((inr id2, out2), w2) ->
  0 <= LastTimeStamp (self w1) - START_TIMESTAMP ->
  LastTimeStamp (self w2) - START_TIMESTAMP < 2 ^ 41 ->
  id1 < id2.
Proof.
  intros Hreach Hfirst Hsecond Hlo Hhi.
  apply jreachable_invariant in Hreach as (Hdc & Hm & Hd & Hmm & Hs).
  apply (nextId_step dc m) in Hfirst
    as (-> & Hd1 & Hm1 & Hs1 & _ & _); try assumption.
  apply (nextId_step dc m) in Hsecond
    as (-> & _ & _ & Hs2 & _ & Hlex); try assumption.
  apply jcompose_lex_lt; try assumption; lia.
Qed.

Lemma X15_nextId_increasing_witness :
  exists id1 out1 w1 id2 out2 w2,
    nextId (fun _ => T0) 1 (mkWorld (mkSnowFlakeId 2 3 0 (-1)) 0)
      = Some ((inr id1, out1), w1)
    /\ nextId (fun _ => T0) 1 w1 = Some ((inr id2, out2), w2)
    /\ id1 < id2.
Proof.
  do 6 eexists.
  split; [vm_compute; reflexivity |].
  split; [vm_compute; reflexivity |].
  apply (X15_nextId_increasing 2 3 (fun _ => T0) 1
           (mkWorld (mkSnowFlakeId 2 3 0 (-1)) 0) _ _ _ _ _ _
           (jreach_new 2 3 _ eq_refl) eq_refl eq_refl);
    vm_compute; (reflexivity || discriminate).
Defined.

(** The ids returned, in call order, by a sequence of calls of [nextId];
    calls that throw are passed over. *)
Inductive issued (clock : nat -> Z) : world -> list Z -> world -> Prop :=
| issued_nil (w : world) : issued clock w [] w
| issued_id (fuel : nat) (w : world) (id : Z) (out : list line)
    (w1 : world) (ids : list Z) (w2 : world) :
    nextId clock fuel w = Some ((inr id, out), w1) ->
    issued clock w1 ids w2 ->
    issued clock w (id :: ids) w2
| issued_throw (fuel : nat) (w : world) (e : exception) (out : list line)
    (w1 : world) (ids : list Z) (w2 : world) :
    nextId clock fuel w = Some ((inl e, out), w1) ->
    issued clock w1 ids w2 ->
    issued clock w ids w2.

Lemma issued_sorted (dc m : Z) (clock : nat -> Z) :
  0 <= dc < 2 ^ 5 -> 0 <= m < 2 ^ 5 ->
  (forall i, 0 <= clock i - START_TIMESTAMP < 2 ^ 41) ->
  forall w ids w',
    issued clock w ids w' ->
    DataCenterId (self w) = dc -> MachineId (self w) = m ->
    0 <= Sequence (self w) < 2 ^ 12 ->
    Forall (jafter dc m (LastTimeStamp (self w)) (Sequence (self w))) ids
    /\ StronglySorted Z.lt ids.
Proof.
  intros Hdc Hm Hwin w ids w' Hrun.
  induction Hrun as [w | fuel w id out w1 ids w2 Hcall _ IH
                       | fuel w e out w1 ids w2 Hcall _ IH];
    intros Hd Hmm Hs.
  - split; constructor.
  - apply (nextId_step dc m) in Hcall
      as (-> & Hd1 & Hm1 & Hs1 & (j & Hj) & Hlex); try assumption.
    destruct (IH Hd1 Hm1 Hs1) as [Hafter Hsorted].
    pose proof (Hwin j) as Hw. rewrite <- Hj in Hw.
    split.
    + constructor.
      * exists (LastTimeStamp (self w1)), (Sequence (self w1)).
        repeat split; try assumption; lia.
      * eapply Forall_impl; [| exact Hafter].
        intros id Hid. eapply jafter_trans; [exact Hlex | exact Hid].
    + constructor; [exact Hsorted |].
      eapply Forall_impl; [| exact Hafter].
      intros id Hid. now apply jafter_lt.
  - apply nextId_inv in Hcall
      as [(_ & _ & ->) | (ts & seq & n' & [=] & _)].
    now apply IH.
Qed.

Lemma sorted_NoDup (l : list Z) : StronglySorted Z.lt l -> NoDup l.
Proof.
  induction 1 as [| a l _ IH Hall]; constructor; [| exact IH].
  intros Hin. rewrite Forall_forall in Hall. specialize (Hall a Hin). lia.
Qed.

(** X18.  On an object built by the constructor and run against a clock
    inside the 41-bit window, the ids returned by any sequence of calls of
    [nextId] are strictly increasing in call order, hence pairwise
    distinct. *)
Theorem X18_nextId_unique (dc m : Z) (clock : nat -> Z)
    (w : world) (ids : list Z) (w' : world) :
  jreachable dc m (self w) ->
  (forall i, 0 <= clock i - START_TIMESTAMP < 2 ^ 41) ->
  issued clock w ids w' ->
  StronglySorted Z.lt ids /\ NoDup ids.
Proof.
  intros Hreach Hwin Hrun.
  apply jreachable_invariant in Hreach as (Hdc & Hm & Hd & Hmm & Hs).
  destruct (issued_sorted dc m clock Hdc Hm Hwin w ids w' Hrun Hd Hmm Hs)
    as [_ Hsorted].
  split; [exact Hsorted | now apply sorted_NoDup].
Qed.

Lemma X18_nextId_unique_witness :
  exists id1 id2 id3 w',
    issued (fun n => T0 + Z.of_nat (Nat.min n 1))
      (mkWorld (mkSnowFlakeId 2 3 0 (-1)) 0) [id1; id2; id3] w'
    /\ StronglySorted Z.lt [id1; id2; id3] /\ NoDup [id1; id2; id3].
Proof.
  assert (Hrun : exists id1 id2 id3 w',
    issued (fun n => T0 + Z.of_nat (Nat.min n 1))
      (mkWorld (mkSnowFlakeId 2 3 0 (-1)) 0) [id1; id2; id3] w').
  { do 4 eexists.
    eapply (issued_id _ 1); [vm_compute; reflexivity |].
    eapply (issued_id _ 1); [vm_compute; reflexivity |].
    eapply (issued_id _ 1); [vm_compute; reflexivity |].
    apply issued_nil. }
  destruct Hrun as (id1 & id2 & id3 & w' & Hrun).
  exists id1, id2, id3, w'. split; [exact Hrun |].
  apply (X18_nextId_unique 2 3 (fun n => T0 + Z.of_nat (Nat.min n 1))
           (mkWorld (mkSnowFlakeId 2 3 0 (-1)) 0) [id1; id2; id3] w').
  - apply jreach_new. reflexivity.
  - intros i. unfold T0, START_TIMESTAMP. lia.
  - exact Hrun.
Defined.

(** ** Identities, and ids read by the other implementation *)

Lemma nextId_decode_identity (dc m : Z) (clock : nat -> Z) (fuel : nat)
    (w : world) (id : Z) (out : list line) (w' : world) :
  jreachable dc m (self w) ->
  nextId clock fuel w = Some ((inr id, out), w') ->
  parseDataCenter id = dc /\ parseMachineId id = m.
Proof.
  intros Hreach Hrun.
  apply jreachable_invariant in Hreach as (Hdc & Hm & Hd & Hmm & _).
  apply nextId_inv in Hrun
    as [(_ & [=] & _) | (ts & seq & n' & [= -> ->] & _ & Hseq & _)].
  rewrite Hd, Hmm.
  now rewrite parseDataCenter_jcompose, parseMachineId_jcompose.
Qed.

(** X19.  Two Java objects built with different identities never return the
    same id, whatever their clocks do. *)
Theorem X19_identities_apart (dc1 m1 dc2 m2 : Z)
    (clock1 clock2 : nat -> Z) (fuel1 fuel2 : nat)
    (w1 w2 : world) (id1 id2 : Z) (out1 out2 : list line) (w1' w2' : world) :
  jreachable dc1 m1 (self w1) ->
  jreachable dc2 m2 (self w2) ->
  nextId clock1 fuel1 w1 = Some ((inr id1, out1), w1') ->
  nextId clock2 fuel2 w2 = Some ((inr id2, out2), w2') ->
  (dc1, m1) <> (dc2, m2) ->
  id1 <> id2.
Proof.
  intros Hr1 Hr2 Hrun1 Hrun2 Hne Heq.
  destruct (nextId_decode_identity _ _ _ _ _ _ _ _ Hr1 Hrun1) as [Hd1 Hm1].
  destruct (nextId_decode_identity _ _ _ _ _ _ _ _ Hr2 Hrun2) as [Hd2 Hm2].
  apply Hne. congruence.
Qed.

Lemma X19_identities_apart_witness :
  exists id1 out1 w1' id2 out2 w2',
    nextId (fun _ => T0) 1 (mkWorld (mkSnowFlakeId 2 3 0 (-1)) 0)
      = Some ((inr id1, out1), w1')
    /\ nextId (fun _ => T0) 1 (mkWorld (mkSnowFlakeId 3 3 0 (-1)) 0)
      = Some ((inr id2, out2), w2')
    /\ id1 <> id2.
Proof.
  do 6 eexists.
  split; [vm_compute; reflexivity |].
  split; [vm_compute; reflexivity |].
  apply (X19_identities_apart 2 3 3 3 (fun _ => T0) (fun _ => T0) 1 1
           (mkWorld (mkSnowFlakeId 2 3 0 (-1)) 0)
           (mkWorld (mkSnowFlakeId 3 3 0 (-1)) 0) _ _ _ _ _ _
           (jreach_new 2 3 _ eq_refl) (jreach_new 3 3 _ eq_refl)
           eq_refl eq_refl).
  discriminate.
Defined.

(** X20.  The two implementations agree on the timestamp and the sequence of
    every word but cut the ten identity bits differently (4 + 6 in Go,
    5 + 5 in Java): the Java machine id is the Go machine id modulo 32, and
    the Java data center is twice the Go data center plus the top bit of the
    Go machine id. *)
Theorem X20_go_java_decoders (id : Z) :
  parseDateTime id = ParseDateTime id
  /\ parseSequence id = ParseSequence id
  /\ parseMachineId id = ParseMachineId id mod 2 ^ 5
  /\ parseDataCenter id = 2 * ParseDataCenter id + ParseMachineId id / 2 ^ 5.
Proof.
  rewrite parseDateTime_field, parseSequence_field, parseMachineId_field,
    parseDataCenter_field, ParseDateTime_field, ParseSequence_field,
    ParseMachineId_field, ParseDataCenter_field.
  rewrite !field_div_mod by lia.
  replace (id / 2 ^ 17) with (id / 2 ^ 12 / 2 ^ 5)
    by (rewrite Z.div_div by lia; reflexivity).
  replace (id / 2 ^ 18) with (id / 2 ^ 12 / 2 ^ 6)
    by (rewrite Z.div_div by lia; reflexivity).
  generalize (id / 2 ^ 12). intros a.
  change (2 ^ 5) with 32. change (2 ^ 6) with 64. change (2 ^ 4) with 16.
  repeat split.
  - Z.div_mod_to_equations. lia.
  - Z.div_mod_to_equations. lia.
Qed.

End SnowflakeIdRun.
